(** * anthill.people.views: directory search and contact quota

    A shallow embedding of [src/anthill/people/views.py].  Querysets are
    lists of profiles in snapshot order, the ORM lookups used by the view
    ([exclude], [filter(role=...)], [filter(..__icontains=...)]) are list
    filters, and the [contact] view is a function on an explicit world
    (mailbox, signal log, flash messages, quota table). *)

From Stdlib Require Import ZArith QArith Qabs String Ascii List Bool Lia Lqa.
From Stdlib Require Import Sorting.Sorted Sorting.Permutation.
From stdpp Require Import gmap.
Import ListNotations.

Local Open Scope string_scope.
Local Open Scope Z_scope.

(** ** Python string helpers used by [search] *)

(** Text is read one character per [ascii]: a [string] is a sequence of
    code points below 256 (U+0000 to U+00FF).  Text with code points above
    that range is outside the model. *)

Module PyStr.

(** ASCII case folding, the comparison performed by an [icontains] lookup. *)
Definition lower_ascii (c : ascii) : ascii :=
  let n := N_of_ascii c in
  if ((65 <=? n) && (n <=? 90))%N then ascii_of_N (n + 32) else c.

Fixpoint lower (s : string) : string :=
  match s with
  | EmptyString => EmptyString
  | String c s' => String (lower_ascii c) (lower s')
  end.

(** [str.split(sep)] for a one-character separator: never returns the empty
    list, and the empty string splits into one empty piece. *)
Fixpoint split (sep : ascii) (s : string) : list string :=
  match s with
  | EmptyString => [EmptyString]
  | String c s' =>
      if Ascii.eqb c sep then EmptyString :: split sep s'
      else match split sep s' with
           | [] => [String c EmptyString]
           | w :: ws => String c w :: ws
           end
  end.

(** The characters removed by [strip()] from a text string, that is the
    code points below 256 for which [isspace()] holds: tab, line feed,
    vertical tab, form feed, carriage return (9-13), the four separators
    28-31, space (32), next line (U+0085, 133) and no-break space (U+00A0,
    160). *)
Definition is_space (c : ascii) : bool :=
  let n := N_of_ascii c in
  ((n =? 32) || ((9 <=? n) && (n <=? 13)) || ((28 <=? n) && (n <=? 31))
   || (n =? 133) || (n =? 160))%N.

Fixpoint lstrip (s : string) : string :=
  match s with
  | EmptyString => EmptyString
  | String c s' => if is_space c then lstrip s' else s
  end.

Fixpoint rstrip (s : string) : string :=
  match s with
  | EmptyString => EmptyString
  | String c s' =>
      match rstrip s' with
      | EmptyString => if is_space c then EmptyString else String c EmptyString
      | r => String c r
      end
  end.

Definition strip (s : string) : string := rstrip (lstrip s).

(** [needle in hay] *)
Fixpoint contains (needle hay : string) : bool :=
  String.prefix needle hay
  || match hay with
     | EmptyString => false
     | String _ hay' => contains needle hay'
     end.

(** the [__icontains] lookup *)
Definition icontains (needle hay : string) : bool :=
  contains (lower needle) (lower hay).

(** truth value of a form field that is [None] or a string *)
Definition truthy (v : option string) : bool :=
  match v with
  | Some (String _ _) => true
  | _ => false
  end.

End PyStr.

(** ** Data model *)

Record Coord := { lat : Q; lng : Q }.

(** [django.contrib.auth.models.User], the columns the views read *)
Record User := {
  id : Z;
  username : string;
  first_name : string;
  email : string
}.

(** [anthill.people.models.Profile] joined with its user ([select_related]) *)
Record Profile := {
  user : User;
  twitter_id : string;
  url : string;
  role : string;
  location : option Coord;
  skills : string;
  about : string
}.

(** [form.cleaned_data] of a valid [SearchForm] *)
Record SearchData := {
  cd_location : option Coord;
  cd_skills : option string;
  cd_name : option string;
  cd_position : option string;
  cd_location_range : option Q
}.

Definition QueryDict := list (string * string).

Record SearchRequest := {
  GET : QueryDict;
  request_user_id : option Z   (* [request.user.id]; [None] when anonymous *)
}.

(** the template context built by [search] *)
Record SearchContext := {
  searched : bool;
  search_results : option (list Profile)
}.

(** ** The [search] view *)

Section Search.

(** The great-circle distance between two coordinates.  The formula is a
    floating-point computation of the location manager, which is not among
    the sources; the development is parametric in it. *)
Variable great_circle : Coord -> Coord -> Q.

(** [SearchForm(request.GET)]: [Some] cleaned data when [is_valid()], [None]
    otherwise.  [anthill.people.forms] is not among the sources. *)
Variable SearchForm : QueryDict -> option SearchData.

(** [.exclude(user__id=uid)]; comparing with [None] matches no row *)
Definition exclude_user (uid : option Z) (users : list Profile) : list Profile :=
  match uid with
  | Some u => List.filter (fun p => negb (id (user p) =? u)) users
  | None => users
  end.

(** [[t.strip() for t in skills.split(',')]] *)
Definition tags_of (skills_field : string) : list string :=
  map PyStr.strip (PyStr.split "," skills_field).

(** [for tag in tags: users = users.filter(skills__icontains=tag)] *)
Definition filter_tags (tags : list string) (users : list Profile) : list Profile :=
  fold_left (fun us tag => List.filter (fun p => PyStr.icontains tag (skills p)) us)
            tags users.

Definition filter_skills (skills_field : option string) (users : list Profile)
  : list Profile :=
  match skills_field with
  | Some s => if PyStr.truthy skills_field then filter_tags (tags_of s) users else users
  | None => users
  end.

(** [if position: users = users.filter(role=position)] *)
Definition filter_role (position : option string) (users : list Profile)
  : list Profile :=
  match position with
  | Some r => if PyStr.truthy position
              then List.filter (fun p => String.eqb (role p) r) users else users
  | None => users
  end.

(** [if name: users = users.filter(user__first_name__icontains=name)] *)
Definition filter_name (name : option string) (users : list Profile)
  : list Profile :=
  match name with
  | Some n => if PyStr.truthy name
              then List.filter (fun p => PyStr.icontains n (first_name (user p))) users
              else users
  | None => users
  end.

(** *** The distance stage *)

(** pair every located record with its distance to [origin]; records
    without a location are dropped *)
Definition decorate (origin : Coord) (users : list Profile) : list (Q * Profile) :=
  flat_map (fun p => match location p with
                     | Some c => [(great_circle origin c, p)]
                     | None => []
                     end) users.

(** ascending distance, ties by ascending identity *)
Definition closer (a b : Q * Profile) : bool :=
  match fst a ?= fst b with
  | Lt => true
  | Eq => id (user (snd a)) <=? id (user (snd b))
  | Gt => false
  end%Q.

Fixpoint insert_by_distance (a : Q * Profile) (l : list (Q * Profile))
  : list (Q * Profile) :=
  match l with
  | [] => [a]
  | b :: l' => if closer a b then a :: l else b :: insert_by_distance a l'
  end.

Definition sort_by_distance (l : list (Q * Profile)) : list (Q * Profile) :=
  fold_right insert_by_distance [] l.

(** Modelled from the spec: [search_by_distance], a method of the profile
    manager defined in [anthill.people.models], which is not among the
    sources.  Per spec 4.2 (steps 4 and 5): keep the records whose
    great-circle distance to the origin is at most the radius, a record
    lacking a location failing unconditionally, and sort the survivors by
    ascending distance, ties broken by identity ascending; an absent radius
    disables the stage and preserves the order. *)
Definition search_by_distance (origin : Coord) (range : option Q)
    (users : list Profile) : list Profile :=
  match range with
  | Some radius =>
      map snd (sort_by_distance
                 (List.filter (fun dp => Qle_bool (fst dp) radius)
                              (decorate origin users)))
  | None => users
  end.

(** the distance of a record to [origin], when it has a location *)
Definition distance_to (origin : Coord) (p : Profile) : option Q :=
  option_map (great_circle origin) (location p).

(** [p] may precede [q] in a ranking by distance from [origin] *)
Definition ranked_before (origin : Coord) (p q : Profile) : Prop :=
  match distance_to origin p, distance_to origin q with
  | Some dp, Some dq => (dp < dq)%Q \/ ((dp == dq)%Q /\ id (user p) <= id (user q))
  | _, _ => False
  end.

Definition filter_location (loc : option Coord) (range : option Q)
    (users : list Profile) : list Profile :=
  match loc with
  | Some origin => search_by_distance origin range users
  | None => users
  end.

(** lines 30-46 of [search]: the queryset built from the cleaned data *)
Definition search_queryset (uid : option Z) (cd : SearchData)
    (objects : list Profile) : list Profile :=
  let users := exclude_user uid objects in
  let users := filter_skills (cd_skills cd) users in
  let users := filter_role (cd_position cd) users in
  let users := filter_name (cd_name cd) users in
  filter_location (cd_location cd) (cd_location_range cd) users.

(** the same pipeline with the skill stage left out *)
Definition search_queryset_without_skills (uid : option Z) (cd : SearchData)
    (objects : list Profile) : list Profile :=
  let users := exclude_user uid objects in
  let users := filter_role (cd_position cd) users in
  let users := filter_name (cd_name cd) users in
  filter_location (cd_location cd) (cd_location_range cd) users.

(** the view: nothing is searched unless the request carries query
    parameters and the form validates *)
Definition search (objects : list Profile) (request : SearchRequest)
  : SearchContext :=
  match GET request with
  | [] => {| searched := false; search_results := None |}
  | _ :: _ =>
      match SearchForm (GET request) with
      | Some cd =>
          {| searched := true;
             search_results :=
               Some (search_queryset (request_user_id request) cd objects) |}
      | None => {| searched := false; search_results := None |}
      end
  end.

(** the records the template lists *)
Definition results_of (ctx : SearchContext) : list Profile :=
  match search_results ctx with
  | Some users => users
  | None => []
  end.

(** [p] is the record of the requester *)
Definition is_requester (uid : option Z) (p : Profile) : bool :=
  match uid with
  | Some u => id (user p) =? u
  | None => false
  end.

Definition set_skills (v : option string) (cd : SearchData) : SearchData :=
  {| cd_location := cd_location cd; cd_skills := v; cd_name := cd_name cd;
     cd_position := cd_position cd; cd_location_range := cd_location_range cd |}.

(** *** The filter order of the specification *)

(** Following spec 4.2, step 3: each record is tested by role, then name,
    then skill tags, then distance, stopping at the first failure. *)
Definition role_ok (cd : SearchData) (p : Profile) : bool :=
  match cd_position cd with
  | Some r => if PyStr.truthy (cd_position cd) then String.eqb (role p) r else true
  | None => true
  end.

Definition name_ok (cd : SearchData) (p : Profile) : bool :=
  match cd_name cd with
  | Some n => if PyStr.truthy (cd_name cd)
              then PyStr.icontains n (first_name (user p)) else true
  | None => true
  end.

Definition skills_ok (cd : SearchData) (p : Profile) : bool :=
  match cd_skills cd with
  | Some s => if PyStr.truthy (cd_skills cd)
              then forallb (fun tag => PyStr.icontains tag (skills p)) (tags_of s)
              else true
  | None => true
  end.

Definition distance_ok (cd : SearchData) (p : Profile) : bool :=
  match cd_location cd, cd_location_range cd, location p with
  | Some origin, Some radius, Some c => Qle_bool (great_circle origin c) radius
  | Some _, Some _, None => false
  | _, _, _ => true
  end.

Definition passes_spec_order (cd : SearchData) (p : Profile) : bool :=
  if role_ok cd p then
    if name_ok cd p then
      if skills_ok cd p then distance_ok cd p else false
    else false
  else false.

(** spec 4.2, step 5: rank by distance when a distance filter was applied *)
Definition rank_spec (cd : SearchData) (users : list Profile) : list Profile :=
  match cd_location cd, cd_location_range cd with
  | Some origin, Some _ => map snd (sort_by_distance (decorate origin users))
  | _, _ => users
  end.

Definition search_spec_order (uid : option Z) (cd : SearchData)
    (objects : list Profile) : list Profile :=
  rank_spec cd (List.filter (passes_spec_order cd) (exclude_user uid objects)).

End Search.

(** ** The quota limiter behind [can_send_email] and [record_email_sent] *)

Inductive Answer := Allowed | Throttled.

Record QuotaConfig := {
  windowDuration : Z;
  maxSendsPerWindow : nat
}.

(** per-identity [sendTimestamps], oldest first; an identity without an
    entry has not been seen yet *)
Abbreviation Limiter := (gmap Z (list Z)).

Section Quota.

Variable cfg : QuotaConfig.

Definition sendTimestamps (q : Limiter) (identity : Z) : list Z :=
  default [] (q !! identity).

(** drop the instants older than [now - windowDuration] *)
Definition prune (now : Z) (ts : list Z) : list Z :=
  List.filter (fun t => now - windowDuration cfg <=? t) ts.

(** Modelled from the spec: [Profile.can_send_email], defined in
    [anthill.people.models], which is not among the sources.  Per spec 4.3,
    [canSend(identity, now)] prunes the timestamps older than
    [now - windowDuration] and answers [Allowed] when fewer than
    [maxSendsPerWindow] remain, [Throttled] otherwise; it records nothing.
    The state of an identity is created on first access. *)
Definition canSend (q : Limiter) (identity now : Z) : Limiter * Answer :=
  let ts := prune now (sendTimestamps q identity) in
  (<[identity := ts]> q,
   if (length ts <? maxSendsPerWindow cfg)%nat then Allowed else Throttled).

(** Modelled from the spec: [Profile.record_email_sent], defined in
    [anthill.people.models], which is not among the sources.  Per spec 4.3,
    [recordSend(identity, now)] appends [now] to the sender's timestamp
    sequence, after pruning. *)
Definition recordSend (q : Limiter) (identity now : Z) : Limiter :=
  <[identity := (prune now (sendTimestamps q identity) ++ [now])%list]> q.

(** Modelled from the spec: the atomic check-then-record operation of
    spec 5 and 6, [tryRecordSend(identity, now)]; the repository has no
    such function, [contact] performs the two steps itself. *)
Definition tryRecordSend (q : Limiter) (identity now : Z) : Limiter * Answer :=
  match canSend q identity now with
  | (q', Allowed) => (recordSend q' identity now, Allowed)
  | (q', Throttled) => (q', Throttled)
  end.

(** the instants of [ts] inside the trailing window that ends at [T] *)
Definition in_window (T : Z) (ts : list Z) : list Z :=
  List.filter (fun t => (T - windowDuration cfg <=? t) && (t <=? T)) ts.

(** *** Sequences of limiter operations *)

Inductive Op :=
| CanSend (identity now : Z)
| RecordSend (identity now : Z).

Definition op_time (op : Op) : Z :=
  match op with CanSend _ t | RecordSend _ t => t end.

Definition exec (q : Limiter) (op : Op) : Limiter :=
  match op with
  | CanSend i t => fst (canSend q i t)
  | RecordSend i t => recordSend q i t
  end.

Definition run (q : Limiter) (ops : list Op) : Limiter := fold_left exec ops q.

(** every instant handed to [recordSend] for [identity], oldest first *)
Definition sent (ops : list Op) (identity : Z) : list Z :=
  flat_map (fun op => match op with
                      | RecordSend i t => if i =? identity then [t] else []
                      | CanSend _ _ => []
                      end) ops.

(** The caller discipline of the guarantee.  [au_permits] holds the
    identities whose latest [canSend] answered [Allowed] and has not been
    consumed by a [recordSend] yet; [au_clock] is the instant of the latest
    operation.  A step is refused when the clock would run backwards or a
    [recordSend] has no unconsumed [Allowed] answer of its identity. *)
Record Audit := {
  au_limiter : Limiter;
  au_permits : gset Z;
  au_clock : option Z
}.

Definition audit0 : Audit :=
  {| au_limiter := ∅; au_permits := ∅; au_clock := None |}.

Definition clock_ok (a : Audit) (t : Z) : bool :=
  match au_clock a with
  | Some c => c <=? t
  | None => true
  end.

Definition audit_step (a : Audit) (op : Op) : option Audit :=
  if clock_ok a (op_time op) then
    match op with
    | CanSend i t =>
        match canSend (au_limiter a) i t with
        | (q, Allowed) =>
            Some {| au_limiter := q; au_permits := {[i]} ∪ au_permits a;
                    au_clock := Some t |}
        | (q, Throttled) =>
            Some {| au_limiter := q; au_permits := au_permits a ∖ {[i]};
                    au_clock := Some t |}
        end
    | RecordSend i t =>
        if bool_decide (i ∈ au_permits a) then
          Some {| au_limiter := recordSend (au_limiter a) i t;
                  au_permits := au_permits a ∖ {[i]};
                  au_clock := Some t |}
        else None
    end
  else None.

Fixpoint audit (a : Audit) (ops : list Op) : option Audit :=
  match ops with
  | [] => Some a
  | op :: ops' =>
      match audit_step a op with
      | Some a' => audit a' ops'
      | None => None
      end
  end.

Definition paired (ops : list Op) : bool :=
  match audit audit0 ops with Some _ => true | None => false end.

(** What an audited run maintains, [h] being the instants recorded so far
    for each identity: the table agrees with the record on every instant
    that can still fall in a window, it holds nothing that was not recorded,
    no window over the record is over-full, and an identity holding an
    unconsumed [Allowed] answer has room for one more send. *)
Record audit_inv (a : Audit) (h : Z -> list Z) : Prop := {
  inv_recent : forall i t x,
    clock_ok a t = true -> t - windowDuration cfg <= x ->
    List.filter (fun e => x <=? e) (sendTimestamps (au_limiter a) i)
    = List.filter (fun e => x <=? e) (h i);
  inv_sublist : forall i, sublist (sendTimestamps (au_limiter a) i) (h i);
  inv_window : forall i T,
    (length (in_window T (h i)) <= maxSendsPerWindow cfg)%nat;
  inv_permit : forall i t,
    i ∈ au_permits a -> clock_ok a t = true ->
    (length (prune t (h i)) < maxSendsPerWindow cfg)%nat
}.

End Quota.

(** ** The [contact] view *)

Inductive Level := Warning | Success.

(** the [data] dictionary handed to the e-mail templates *)
Record ContactData := {
  from_user : User;
  to_user : User;
  subject : string;
  body : string
}.

(** one firing of the [message_sent] signal *)
Record MessageSent := {
  ms_sender : User;
  ms_subject : string;
  ms_body : string;
  ms_recipient : User
}.

(** one call of [User.email_user(subject, message, from_email)] *)
Record Email := {
  mail_to : User;
  mail_subject : string;
  mail_body : string;
  mail_from : string
}.

(** everything [contact] reads or changes outside its arguments *)
Record World := {
  accounts : list User;
  quota : Limiter;
  signals : list MessageSent;
  outbox : list Email;
  flash : list (Level * string)
}.

Record ContactRequest := {
  request_user : option User;   (* [None]: not logged in *)
  method : string;
  POST : QueryDict;
  now : Z                       (* the clock reading during the request *)
}.

Inductive Response :=
| LoginRequired
| Http404
| Redirect (view : string) (args : list string)
| Render (template : string) (bound : bool) (recipient : User)
| ServerError (exception : string).   (* an exception left the view *)

(** how a call that may raise ended *)
Inductive Outcome :=
| Returned
| Raised (exception : string).

(** a view is a computation on the world *)
Definition View (A : Type) : Type := World -> A * World.

Definition ret {A} (x : A) : View A := fun w => (x, w).

Definition bind {A B} (m : View A) (k : A -> View B) : View B :=
  fun w => let (x, w') := m w in k x w'.

Notation "'let*' x ':=' m 'in' k" := (bind m (fun x => k))
  (at level 10, x name, m at level 100, k at level 200).
Notation "m >>> k" := (bind m (fun _ => k))
  (at level 90, right associativity).

Section Contact.

Variable cfg : QuotaConfig.

(** [UserContactForm(request.POST)]: the cleaned subject and body when the
    form is valid.  [anthill.people.forms] is not among the sources. *)
Variable UserContactForm : QueryDict -> option (string * string).

(** [render_to_string(template, data)]; the templates are not among the
    sources. *)
Variable render_to_string : string -> ContactData -> string.

(** [get_object_or_404(User, username=...)]; [None] stands for the raised
    [Http404] *)
Definition get_object_or_404 (name : string) : View (option User) :=
  fun w => (List.find (fun u => String.eqb (username u) name) (accounts w), w).

Definition messages_add (lvl : Level) (text : string) : View unit :=
  fun w => (tt, {| accounts := accounts w; quota := quota w;
                   signals := signals w; outbox := outbox w;
                   flash := (flash w ++ [(lvl, text)])%list |}).

(** [request.user.profile.can_send_email()] *)
Definition can_send_email (u : User) (t : Z) : View bool :=
  fun w => let (q, ans) := canSend cfg (quota w) (id u) t in
           (match ans with Allowed => true | Throttled => false end,
            {| accounts := accounts w; quota := q;
               signals := signals w; outbox := outbox w; flash := flash w |}).

(** [request.user.profile.record_email_sent()] *)
Definition record_email_sent (u : User) (t : Z) : View unit :=
  fun w => (tt, {| accounts := accounts w;
                   quota := recordSend cfg (quota w) (id u) t;
                   signals := signals w; outbox := outbox w; flash := flash w |}).

Definition message_sent_send (s : MessageSent) : View unit :=
  fun w => (tt, {| accounts := accounts w; quota := quota w;
                   signals := (signals w ++ [s])%list;
                   outbox := outbox w; flash := flash w |}).

(** a header value that spans lines *)
Fixpoint has_newline (s : string) : bool :=
  match s with
  | EmptyString => false
  | String c s' =>
      (N_of_ascii c =? 10)%N || (N_of_ascii c =? 13)%N || has_newline s'
  end.

(** the check that makes [send_mail] raise [BadHeaderError] *)
Definition bad_header (m : Email) : bool :=
  has_newline (mail_subject m) || has_newline (mail_from m)
  || has_newline (email (mail_to m)).

(** [to_user.email_user(subject, message, from_email)], that is
    [send_mail(subject, message, from_email, [to_user.email])]: nothing is
    sent, and the call returns, when the recipient has no address; a header
    that spans lines raises [BadHeaderError]; otherwise the message is handed
    to the mail backend, which is taken to accept it. *)
Definition email_user (m : Email) : View Outcome :=
  fun w =>
    if String.eqb (email (mail_to m)) "" then (Returned, w)
    else if bad_header m then (Raised "BadHeaderError", w)
    else (Returned, {| accounts := accounts w; quota := quota w;
                       signals := signals w;
                       outbox := (outbox w ++ [m])%list; flash := flash w |}).

(** Python's [x or y] on strings *)
Definition str_or (x y : string) : string :=
  match x with EmptyString => y | _ => x end.

Definition contact (request : ContactRequest) (name : string) : View Response :=
  match request_user request with
  | None => ret LoginRequired
  | Some me =>
      let* found := get_object_or_404 name in
      match found with
      | None => ret Http404
      | Some to =>
          if String.eqb (email me) "" then
            messages_add Warning
              "You must set a valid email address prior to emailing other users." >>>
            ret (Redirect "edit_profile" [])
          else
            let* ok := can_send_email me (now request) in
            (if ok then ret tt
             else messages_add Warning
                    "You have currently exceeded the message quota.  Please wait a few minutes before sending this message.") >>>
            if String.eqb (method request) "GET" then
              ret (Render "people/contact.html" false to)
            else
              match UserContactForm (POST request) with
              | None => ret (Render "people/contact.html" true to)
              | Some (subj, msg) =>
                  let* ok' := can_send_email me (now request) in
                  if ok' then
                    let data := {| from_user := me; to_user := to;
                                   subject := subj; body := msg |} in
                    let subject' :=
                      render_to_string "people/contact_email_subject.txt" data in
                    let body' :=
                      render_to_string "people/contact_email_body.txt" data in
                    message_sent_send
                      {| ms_sender := me; ms_subject := subject';
                         ms_body := body'; ms_recipient := to |} >>>
                    let* sent :=
                      email_user
                        {| mail_to := to; mail_subject := PyStr.strip subject';
                           mail_body := body'; mail_from := email me |} in
                    match sent with
                    | Raised exn => ret (ServerError exn)
                    | Returned =>
                        messages_add Success
                          ("Your email has been delivered to "
                           ++ str_or (first_name to) (username to)) >>>
                        record_email_sent me (now request) >>>
                        ret (Redirect "user_profile" [name])
                    end
                  else ret (Render "people/contact.html" true to)
              end
      end
  end.

End Contact.

(** ** The [profile] view *)

Inductive ProfileResponse :=
| ProfileNotFound
| ProfilePage (p_user : User).

(** [get_object_or_404] and a render of [people/profile.html] *)
Definition profile (name : string) : View ProfileResponse :=
  let* found := get_object_or_404 name in
  match found with
  | None => ret ProfileNotFound
  | Some u => ret (ProfilePage u)
  end.

(** ** The [edit_profile] and [change_password] views *)

(** the [data] dictionary of a [ProfileForm], and the [cleaned_data] of a
    valid one *)
Record ProfileData := {
  pd_name : string;
  pd_email : string;
  pd_twitter_id : string;
  pd_url : string;
  pd_position : string;
  pd_location : option Coord;
  pd_skills : string;
  pd_about : string
}.

(** what the two views read or change: the profile rows joined with their
    users, the stored passwords, and the flash messages *)
Record Site := {
  site_profiles : list Profile;
  site_passwords : gmap Z string;
  site_flash : list (Level * string)
}.

Record AccountRequest := {
  account_user : option Profile;   (* [request.user] with its profile *)
  account_method : string;
  account_POST : QueryDict;
  account_FILES : QueryDict
}.

(** the form handed to [people/edit_profile.html] *)
Inductive ProfileFormState :=
| FormOf (data : ProfileData)
| FormErrors (posted : QueryDict).

Inductive EditResponse :=
| EditLoginRequired
| EditPage (form : ProfileFormState).

Inductive PasswordResponse :=
| PasswordLoginRequired
| PasswordNotAllowed             (* [require_POST]: 405 *)
| PasswordRedirect (view : string).

(** helper method to convert User/Profile to a populated ProfileForm *)
Definition _user_to_profileform (p : Profile) : ProfileData :=
  {| pd_name := first_name (user p);
     pd_email := email (user p);
     pd_twitter_id := twitter_id p;
     pd_url := url p;
     pd_position := role p;
     pd_location := location p;
     pd_skills := skills p;
     pd_about := about p |}.

(** the eight assignments of [edit_profile] *)
Definition assign_cleaned_data (d : ProfileData) (p : Profile) : Profile :=
  {| user := {| id := id (user p); username := username (user p);
                first_name := pd_name d; email := pd_email d |};
     twitter_id := pd_twitter_id d;
     url := pd_url d;
     role := pd_position d;
     location := pd_location d;
     skills := pd_skills d;
     about := pd_about d |}.

Definition same_user (p q : Profile) : bool := id (user p) =? id (user q).

(** [user.save(); profile.save()]: the rows with the object's key are
    overwritten, and a row is added when there is none *)
Definition save (p : Profile) (rows : list Profile) : list Profile :=
  if existsb (same_user p) rows
  then map (fun q => if same_user p q then p else q) rows
  else (rows ++ [p])%list.

(** [user.save()] alone: only the user columns of the rows are written *)
Definition save_user (u : User) (rows : list Profile) : list Profile :=
  map (fun q => if id u =? id (user q)
                then {| user := u; twitter_id := twitter_id q; url := url q;
                        role := role q; location := location q;
                        skills := skills q; about := about q |}
                else q) rows.

(** the stored row of a user *)
Definition row_of (uid : Z) (rows : list Profile) : option Profile :=
  List.find (fun q => id (user q) =? uid) rows.

Section Account.

(** [ProfileForm(request.POST, request.FILES)]: the cleaned data when the
    form is valid.  [anthill.people.forms] is not among the sources. *)
Variable ProfileForm : QueryDict -> QueryDict -> option ProfileData.

(** [PasswordForm(request.POST)]: [cleaned_data['password1']] when the form
    is valid. *)
Variable PasswordForm : QueryDict -> option string.

(** what [User.set_password] stores for a raw password *)
Variable make_password : string -> string.

Definition edit_profile (request : AccountRequest) (s : Site)
  : EditResponse * Site :=
  match account_user request with
  | None => (EditLoginRequired, s)
  | Some me =>
      if String.eqb (account_method request) "POST" then
        match ProfileForm (account_POST request) (account_FILES request) with
        | Some d =>
            (EditPage (FormOf d),
             {| site_profiles := save (assign_cleaned_data d me) (site_profiles s);
                site_passwords := site_passwords s;
                site_flash :=
                  (site_flash s ++ [(Success, "Saved profile changes.")])%list |})
        | None => (EditPage (FormErrors (account_POST request)), s)
        end
      else (EditPage (FormOf (_user_to_profileform me)), s)
  end.

Definition change_password (request : AccountRequest) (s : Site)
  : PasswordResponse * Site :=
  match account_user request with
  | None => (PasswordLoginRequired, s)
  | Some me =>
      if String.eqb (account_method request) "POST" then
        match PasswordForm (account_POST request) with
        | Some password1 =>
            (PasswordRedirect "edit_profile",
             {| site_profiles := save_user (user me) (site_profiles s);
                site_passwords :=
                  <[id (user me) := make_password password1]> (site_passwords s);
                site_flash :=
                  (site_flash s ++ [(Success, "Password changed.")])%list |})
        | None =>
            (PasswordRedirect "edit_profile",
             {| site_profiles := site_profiles s;
                site_passwords := site_passwords s;
                site_flash :=
                  (site_flash s ++ [(Success, "Passwords did not match.")])%list |})
        end
      else (PasswordNotAllowed, s)
  end.

End Account.

(** ** Consistency of the mail log *)

(** the e-mail that goes with one firing of [message_sent] *)
Definition announces (s : MessageSent) (m : Email) : Prop :=
  mail_to m = ms_recipient s
  /\ mail_from m = email (ms_sender s)
  /\ mail_body m = ms_body s
  /\ mail_subject m = PyStr.strip (ms_subject s).

(** every e-mail was announced by a signal of its own, in the same order
    (a signal may have no e-mail: the signal fires before the e-mail is
    sent); every e-mail comes from a non-empty address, goes to an account
    that has an address, and has a one-line subject *)
Definition mail_log_ok (w : World) : Prop :=
  (exists announced,
      sublist announced (signals w) /\ Forall2 announces announced (outbox w))
  /\ Forall (fun m => mail_from m <> ""
                      /\ In (mail_to m) (accounts w)
                      /\ email (mail_to m) <> ""
                      /\ has_newline (mail_subject m) = false) (outbox w).

(** ** The requested tags, as the specification words them *)

(** the pieces joined by the separator *)
Fixpoint join (sep : ascii) (ps : list string) : string :=
  match ps with
  | [] => ""
  | [p] => p
  | p :: ps' => p ++ String sep (join sep ps')
  end.

Definition comma_free (s : string) : Prop :=
  ~ In ","%char (list_ascii_of_string s).

(** [ps] are the comma-separated pieces of [field] *)
Definition pieces (field : string) (ps : list string) : Prop :=
  ps <> [] /\ field = join "," ps /\ Forall comma_free ps.

Fixpoint all_space (s : string) : bool :=
  match s with
  | EmptyString => true
  | String c s' => PyStr.is_space c && all_space s'
  end.

Definition first_char (s : string) : option ascii :=
  match s with
  | EmptyString => None
  | String c _ => Some c
  end.

Fixpoint last_char (s : string) : option ascii :=
  match s with
  | EmptyString => None
  | String c EmptyString => Some c
  | String _ s' => last_char s'
  end.

Definition no_space (c : option ascii) : bool :=
  match c with
  | Some c => negb (PyStr.is_space c)
  | None => true
  end.

(** neither the first nor the last character is whitespace *)
Definition trimmed (s : string) : bool :=
  no_space (first_char s) && no_space (last_char s).

(** [tag] is [piece] without its leading and trailing whitespace *)
Definition stripped (piece tag : string) : Prop :=
  exists l r, piece = l ++ tag ++ r
              /\ all_space l = true /\ all_space r = true /\ trimmed tag = true.

(** [tag] is one of the requested tags of a skills field: a comma-separated
    piece of it, whitespace-stripped *)
Definition requested (field tag : string) : Prop :=
  exists ps piece, pieces field ps /\ In piece ps /\ stripped piece tag.

(** two characters that are equal or are the two cases of one of the
    twenty-six letters A-Z *)
Definition same_letter (a b : ascii) : Prop :=
  a = b \/
  exists k, (k < 26)%N /\
    ((N_of_ascii a = 65 + k /\ N_of_ascii b = 97 + k)%N \/
     (N_of_ascii a = 97 + k /\ N_of_ascii b = 65 + k)%N).

(** two texts that are equal up to the case of their letters *)
Fixpoint same_text (s t : string) : Prop :=
  match s, t with
  | EmptyString, EmptyString => True
  | String a s', String b t' => same_letter a b /\ same_text s' t'
  | _, _ => False
  end.

(** [tag] is a case-insensitive substring of [s] *)
Definition occurs_in (tag s : string) : Prop :=
  exists pre mid post, s = pre ++ mid ++ post /\ same_text mid tag.

(** ** Sample data *)

Module Sample.

Definition account (i : Z) (name mail : string) : User :=
  {| id := i; username := name; first_name := name; email := mail |}.

Definition profile (u : User) (r sk : string) (loc : option Coord) : Profile :=
  {| user := u; twitter_id := ""; url := ""; role := r; location := loc;
     skills := sk; about := "" |}.

Definition alice : User := account 1 "alice" "alice@example.org".
Definition bob : User := account 2 "bob" "bob@example.org".
Definition carol : User := account 3 "carol" "".

Definition A : Profile :=
  profile alice "dev" "go, rust" (Some {| lat := 0; lng := 0 |}).
Definition B : Profile :=
  profile bob "dev" "python, mongodb" (Some {| lat := 0; lng := 1 |}).
Definition C : Profile := profile carol "design" "go" None.

Definition directory : list Profile := [A; B; C].

(** a stand-in metric for the examples: degrees along the grid *)
Definition grid_distance (a b : Coord) : Q :=
  (Qabs (lat a - lat b) + Qabs (lng a - lng b))%Q.

Definition field (key : string) (d : QueryDict) : option string :=
  option_map snd (List.find (fun kv => String.eqb (fst kv) key) d).

(** a stand-in form: three optional text fields, no location *)
Definition text_form (d : QueryDict) : option SearchData :=
  Some {| cd_location := None; cd_skills := field "skills" d;
          cd_name := field "name" d; cd_position := field "position" d;
          cd_location_range := None |}.

Definition blank_request : SearchRequest :=
  {| GET := [("skills", ""); ("name", ""); ("position", "")];
     request_user_id := Some 1 |}.

Definition three_per_minute : QuotaConfig :=
  {| windowDuration := 60; maxSendsPerWindow := 3 |}.

(** five check-then-record attempts of identity 7; the fourth is throttled *)
Definition five_attempts : list Op :=
  [CanSend 7 0; RecordSend 7 0; CanSend 7 10; RecordSend 7 10;
   CanSend 7 20; RecordSend 7 20; CanSend 7 30;
   CanSend 7 61; RecordSend 7 61].

(** two checks answered before either send is recorded *)
Definition racing_pairs : list Op :=
  [CanSend 7 0; CanSend 7 0; RecordSend 7 0; RecordSend 7 0].

Definition templates (name : string) (d : ContactData) : string :=
  if String.eqb name "people/contact_email_subject.txt"
  then " " ++ subject d ++ " " else body d.

(** templates whose subject line is followed by a second line *)
Definition two_line_templates (name : string) (d : ContactData) : string :=
  if String.eqb name "people/contact_email_subject.txt"
  then subject d ++ String "010" "re: " ++ subject d else body d.

Definition contact_form (d : QueryDict) : option (string * string) :=
  match field "subject" d, field "body" d with
  | Some s, Some b => Some (s, b)
  | _, _ => None
  end.

Definition world : World :=
  {| accounts := [alice; bob; carol]; quota := ∅; signals := [];
     outbox := []; flash := [] |}.

Definition post (sender : User) (t : Z) : ContactRequest :=
  {| request_user := Some sender; method := "POST";
     POST := [("subject", "hello"); ("body", "lunch?")]; now := t |}.

(** bob has used up his three sends *)
Definition busy_world : World :=
  {| accounts := [alice; bob; carol]; quota := {[ 2 := [1; 2; 3] ]};
     signals := []; outbox := []; flash := [] |}.

Definition site : Site :=
  {| site_profiles := directory; site_passwords := ∅; site_flash := [] |}.

Definition new_data : ProfileData :=
  {| pd_name := "Bobby"; pd_email := "bobby@example.org"; pd_twitter_id := "bobby";
     pd_url := "http://example.org/"; pd_position := "design";
     pd_location := None; pd_skills := "css, html"; pd_about := "hi" |}.

(** a stand-in profile form: valid when a [name] is posted *)
Definition profile_form (post files : QueryDict) : option ProfileData :=
  match field "name" post with
  | Some _ => Some new_data
  | None => None
  end.

(** a stand-in password form: valid when the two fields agree *)
Definition password_form (post : QueryDict) : option string :=
  match field "password1" post, field "password2" post with
  | Some a, Some b => if String.eqb a b then Some a else None
  | _, _ => None
  end.

Definition edit_post : AccountRequest :=
  {| account_user := Some B; account_method := "POST";
     account_POST := [("name", "Bobby")]; account_FILES := [] |}.

Definition password_post : AccountRequest :=
  {| account_user := Some B; account_method := "POST";
     account_POST := [("password1", "s3cret"); ("password2", "s3cret")];
     account_FILES := [] |}.

End Sample.

(** * Properties *)

(** ** Strings *)

Lemma append_String (c : ascii) (s t : string) :
  String c s ++ t = String c (s ++ t).
Proof. reflexivity. Qed.

Lemma append_empty (t : string) : "" ++ t = t.
Proof. reflexivity. Qed.

Lemma prefix_iff (n h : string) :
  String.prefix n h = true <-> exists post, h = n ++ post.
Proof.
  revert h; induction n as [|c n IH]; intros h.
  - split; [intros _; exists h; reflexivity | destruct h; reflexivity].
  - destruct h as [|d h]; simpl.
    + split; [discriminate | intros [post H]; discriminate].
    + setoid_rewrite append_String.
      destruct (ascii_dec c d) as [->|Hne].
      * rewrite IH. split; intros [post H]; exists post; congruence.
      * split; [discriminate | intros [post H]; congruence].
Qed.

Lemma contains_iff (n h : string) :
  PyStr.contains n h = true <-> exists pre post, h = pre ++ n ++ post.
Proof.
  induction h as [|d h IH]; cbn [PyStr.contains].
  - rewrite orb_false_r, prefix_iff. split.
    + intros [post H]. exists "", post. exact H.
    + intros [pre [post H]]. destruct pre; [exists post; exact H | discriminate].
  - rewrite orb_true_iff, prefix_iff, IH. split.
    + intros [[post H] | [pre [post H]]].
      * exists "", post. exact H.
      * exists (String d pre), post. rewrite append_String. congruence.
    + intros [pre [post H]]. destruct pre as [|e pre].
      * left. exists post. exact H.
      * right. exists pre, post. rewrite append_String in H. congruence.
Qed.

Lemma icontains_iff (tag s : string) :
  PyStr.icontains tag s = true <->
  exists pre post, PyStr.lower s = pre ++ PyStr.lower tag ++ post.
Proof. apply contains_iff. Qed.

Example go_in_mongo : PyStr.icontains "go" "Python, MonGo" = true.
Proof. reflexivity. Qed.

Example tags_of_example : tags_of " go , Rust,django " = ["go"; "Rust"; "django"].
Proof. reflexivity. Qed.

(** ** List filters *)

Lemma filter_filter {A} (f g : A -> bool) (l : list A) :
  List.filter f (List.filter g l) = List.filter (fun x => g x && f x) l.
Proof.
  induction l as [|x l IH]; simpl; [reflexivity|].
  destruct (g x); simpl; [destruct (f x)|]; rewrite IH; reflexivity.
Qed.

Lemma filter_true {A} (l : list A) : List.filter (fun _ => true) l = l.
Proof. induction l as [|x l IH]; simpl; congruence. Qed.

Lemma filter_tags_forallb (tags : list string) (users : list Profile) :
  filter_tags tags users =
  List.filter (fun p => forallb (fun tag => PyStr.icontains tag (skills p)) tags) users.
Proof.
  unfold filter_tags. revert users.
  induction tags as [|t ts IH]; intros users; simpl.
  - symmetry. apply filter_true.
  - rewrite IH, filter_filter. reflexivity.
Qed.


Example go_matches_mongodb :
  filter_skills (Some "go") Sample.directory = Sample.directory.
Proof. reflexivity. Qed.

(** ** Ranking by distance *)

Lemma closer_iff (a b : Q * Profile) :
  closer a b = true <->
  (fst a < fst b)%Q \/
  ((fst a == fst b)%Q /\ id (user (snd a)) <= id (user (snd b))).
Proof.
  unfold closer. destruct (fst a ?= fst b)%Q eqn:E.
  - apply Qeq_alt in E. rewrite Z.leb_le. split.
    + intros H. right. split; assumption.
    + intros [H | [_ H]]; [lra | exact H].
  - apply Qlt_alt in E. split; [intros _; left; exact E | reflexivity].
  - apply Qgt_alt in E. split; [discriminate | intros [H | [H _]]; lra].
Qed.

Lemma closer_total (a b : Q * Profile) :
  closer a b = false -> closer b a = true.
Proof.
  intros H. apply closer_iff.
  destruct (Qlt_le_dec (fst b) (fst a)) as [Hlt | Hle]; [left; exact Hlt|].
  destruct (Qlt_le_dec (fst a) (fst b)) as [Hlt | Hge].
  - assert (closer a b = true) by (apply closer_iff; left; exact Hlt). congruence.
  - right. split; [lra|].
    destruct (Z_le_gt_dec (id (user (snd a))) (id (user (snd b)))) as [Hid | Hid];
      [|lia].
    assert (closer a b = true) by (apply closer_iff; right; split; [lra | exact Hid]).
    congruence.
Qed.

Lemma closer_trans (a b c : Q * Profile) :
  closer a b = true -> closer b c = true -> closer a c = true.
Proof.
  rewrite !closer_iff.
  intros [Hab | [Hab Hi]] [Hbc | [Hbc Hj]].
  - left; lra.
  - left; lra.
  - left; lra.
  - right. split; [lra | lia].
Qed.

Lemma insert_by_distance_perm (a : Q * Profile) (l : list (Q * Profile)) :
  Permutation (insert_by_distance a l) (a :: l).
Proof.
  induction l as [|b l IH]; simpl; [reflexivity|].
  destruct (closer a b); [reflexivity|].
  rewrite IH. apply perm_swap.
Qed.

Lemma sort_by_distance_perm (l : list (Q * Profile)) :
  Permutation (sort_by_distance l) l.
Proof.
  induction l as [|a l IH]; simpl; [reflexivity|].
  rewrite insert_by_distance_perm. apply perm_skip, IH.
Qed.

Lemma insert_by_distance_sorted (a : Q * Profile) (l : list (Q * Profile)) :
  StronglySorted (fun x y => closer x y = true) l ->
  StronglySorted (fun x y => closer x y = true) (insert_by_distance a l).
Proof.
  induction 1 as [|b l Hs IH Hb]; simpl.
  - repeat constructor.
  - destruct (closer a b) eqn:E.
    + constructor; [constructor; assumption|].
      constructor; [exact E|].
      eapply List.Forall_impl; [|exact Hb].
      intros c Hc. eapply closer_trans; eassumption.
    + constructor; [exact IH|].
      eapply Permutation.Permutation_Forall; [symmetry; apply insert_by_distance_perm|].
      constructor; [apply closer_total, E | exact Hb].
Qed.

Lemma sort_by_distance_sorted (l : list (Q * Profile)) :
  StronglySorted (fun x y => closer x y = true) (sort_by_distance l).
Proof.
  induction l as [|a l IH]; simpl; [constructor|].
  apply insert_by_distance_sorted, IH.
Qed.

Lemma StronglySorted_map {A B} (R : A -> A -> Prop) (R' : B -> B -> Prop)
    (P : A -> Prop) (f : A -> B) (l : list A) :
  (forall x y, P x -> P y -> R x y -> R' (f x) (f y)) ->
  Forall P l -> StronglySorted R l -> StronglySorted R' (map f l).
Proof.
  intros HR HP Hs. induction Hs as [|x l Hs IH Hx]; simpl; [constructor|].
  inversion HP as [|? ? Px Pl]; subst.
  constructor; [apply IH, Pl|].
  apply List.Forall_map. rewrite List.Forall_forall in *.
  intros y Hy. apply HR; auto.
Qed.

(** ** The search pipeline *)

Section SearchProperties.

Variable great_circle : Coord -> Coord -> Q.
Variable SearchForm : QueryDict -> option SearchData.

Lemma exclude_user_filter (uid : option Z) (users : list Profile) :
  exclude_user uid users = List.filter (fun p => negb (is_requester uid p)) users.
Proof.
  destruct uid as [u|]; simpl; [reflexivity|].
  symmetry. apply filter_true.
Qed.

Lemma filter_skills_off (v : option string) (users : list Profile) :
  PyStr.truthy v = false -> filter_skills v users = users.
Proof. intros H. unfold filter_skills. rewrite H. destruct v; reflexivity. Qed.

Lemma filter_role_off (v : option string) (users : list Profile) :
  PyStr.truthy v = false -> filter_role v users = users.
Proof. intros H. unfold filter_role. rewrite H. destruct v; reflexivity. Qed.

Lemma filter_name_off (v : option string) (users : list Profile) :
  PyStr.truthy v = false -> filter_name v users = users.
Proof. intros H. unfold filter_name. rewrite H. destruct v; reflexivity. Qed.

(** C7: a query whose skills field is the empty string gives the same
    result sequence as the same query without a skills field, and both give
    what the pipeline gives with the skill stage left out. *)
Theorem empty_skills_same_as_no_skill_filter
    (uid : option Z) (cd : SearchData) (objects : list Profile) :
  search_queryset great_circle uid (set_skills (Some "") cd) objects
  = search_queryset great_circle uid (set_skills None cd) objects
  /\ search_queryset great_circle uid (set_skills (Some "") cd) objects
     = search_queryset_without_skills great_circle uid cd objects.
Proof. split; reflexivity. Qed.

(** C8: for a query whose skills, position, name and location fields are
    all blank, the queryset is the whole directory minus the requester's
    record, in snapshot order; and that is what the view lists for a request
    carrying such a query. *)
Theorem empty_query_lists_everyone_else
    (uid : option Z) (cd : SearchData) (objects : list Profile) :
  PyStr.truthy (cd_skills cd) = false ->
  PyStr.truthy (cd_position cd) = false ->
  PyStr.truthy (cd_name cd) = false ->
  cd_location cd = None ->
  search_queryset great_circle uid cd objects
  = List.filter (fun p => negb (is_requester uid p)) objects
  /\ forall request,
       GET request <> [] ->
       SearchForm (GET request) = Some cd ->
       search great_circle SearchForm objects request
       = {| searched := true;
            search_results :=
              Some (List.filter
                      (fun p => negb (is_requester (request_user_id request) p))
                      objects) |}.
Proof.
  intros Hsk Hpos Hname Hloc.
  assert (Hq : forall u, search_queryset great_circle u cd objects
                         = List.filter (fun p => negb (is_requester u p)) objects).
  { intros u. unfold search_queryset.
    rewrite Hloc, (filter_skills_off _ _ Hsk), (filter_role_off _ _ Hpos),
      (filter_name_off _ _ Hname), exclude_user_filter.
    reflexivity. }
  split; [apply Hq|].
  intros request Hget Hform. unfold search.
  destruct (GET request) as [|kv rest] eqn:E; [congruence|].
  rewrite Hform, Hq. reflexivity.
Qed.

(** *** The stages only ever drop records *)

Lemma filter_skills_In (v : option string) (users : list Profile) (p : Profile) :
  In p (filter_skills v users) -> In p users.
Proof.
  unfold filter_skills. destruct v as [s|]; [|tauto].
  destruct (PyStr.truthy (Some s)); [|tauto].
  rewrite filter_tags_forallb, List.filter_In. tauto.
Qed.

Lemma filter_role_In (v : option string) (users : list Profile) (p : Profile) :
  In p (filter_role v users) -> In p users.
Proof.
  unfold filter_role. destruct v as [s|]; [|tauto].
  destruct (PyStr.truthy (Some s)); [|tauto].
  rewrite List.filter_In. tauto.
Qed.

Lemma filter_name_In (v : option string) (users : list Profile) (p : Profile) :
  In p (filter_name v users) -> In p users.
Proof.
  unfold filter_name. destruct v as [s|]; [|tauto].
  destruct (PyStr.truthy (Some s)); [|tauto].
  rewrite List.filter_In. tauto.
Qed.

Lemma decorate_In (origin : Coord) (users : list Profile) (dp : Q * Profile) :
  In dp (decorate great_circle origin users) <->
  In (snd dp) users /\ distance_to great_circle origin (snd dp) = Some (fst dp).
Proof.
  unfold decorate, distance_to. rewrite in_flat_map. split.
  - intros [p [Hp Hdp]]. destruct (location p) as [c|] eqn:E; simpl in Hdp; [|tauto].
    destruct Hdp as [<- | []]. simpl. rewrite E. auto.
  - intros [Hin Hd]. exists (snd dp). split; [exact Hin|].
    destruct (location (snd dp)) as [c|]; simpl in *; [|discriminate].
    left. destruct dp; simpl in *. congruence.
Qed.

(** what the distance stage guarantees about its output *)
Lemma search_by_distance_sound (origin : Coord) (radius : Q) (users : list Profile) :
  Forall (fun p => In p users /\
                   exists c, location p = Some c /\
                             (great_circle origin c <= radius)%Q)
         (search_by_distance great_circle origin (Some radius) users)
  /\ StronglySorted (ranked_before great_circle origin)
        (search_by_distance great_circle origin (Some radius) users).
Proof.
  unfold search_by_distance.
  set (kept := List.filter (fun dp => Qle_bool (fst dp) radius)
                           (decorate great_circle origin users)).
  assert (Hall : Forall (fun dp => In (snd dp) users /\
                   distance_to great_circle origin (snd dp) = Some (fst dp) /\
                   (fst dp <= radius)%Q) (sort_by_distance kept)).
  { eapply Permutation.Permutation_Forall;
      [symmetry; apply sort_by_distance_perm|].
    apply List.Forall_forall. intros dp Hdp.
    apply List.filter_In in Hdp as [Hdec Hle].
    apply decorate_In in Hdec as [Hin Hd]. apply Qle_bool_iff in Hle. auto. }
  split.
  - apply List.Forall_map. eapply List.Forall_impl; [|exact Hall].
    intros dp (Hin & Hd & Hle). split; [exact Hin|].
    unfold distance_to in Hd.
    destruct (location (snd dp)) as [c|]; [|discriminate].
    exists c. split; [reflexivity|]. simpl in Hd. congruence.
  - eapply StronglySorted_map; [|exact Hall|apply sort_by_distance_sorted].
    intros x y (_ & Hx & _) (_ & Hy & _) Hxy.
    unfold ranked_before. rewrite Hx, Hy. apply closer_iff, Hxy.
Qed.

Lemma filter_location_In (loc : option Coord) (range : option Q)
    (users : list Profile) (p : Profile) :
  In p (filter_location great_circle loc range users) -> In p users.
Proof.
  unfold filter_location. destruct loc as [o|]; [|tauto].
  destruct range as [r|]; [|simpl; tauto].
  intros H. destruct (search_by_distance_sound o r users) as [Hall _].
  rewrite List.Forall_forall in Hall. apply Hall, H.
Qed.

Lemma search_queryset_In (uid : option Z) (cd : SearchData)
    (objects : list Profile) (p : Profile) :
  In p (search_queryset great_circle uid cd objects) ->
  In p (exclude_user uid objects).
Proof.
  unfold search_queryset. intros H.
  apply filter_location_In, filter_name_In, filter_role_In, filter_skills_In in H.
  exact H.
Qed.

(** C6: whatever the directory and the request, no record listed by the
    view has the identity of the requester. *)
Theorem requester_never_listed (objects : list Profile) (request : SearchRequest) :
  Forall (fun p => Some (id (user p)) <> request_user_id request)
         (results_of (search great_circle SearchForm objects request)).
Proof.
  apply List.Forall_forall. intros p Hp.
  unfold search, results_of in Hp.
  destruct (GET request); simpl in Hp; [tauto|].
  destruct (SearchForm _) as [cd|]; simpl in Hp; [|tauto].
  apply search_queryset_In in Hp. unfold exclude_user in Hp.
  destruct (request_user_id request) as [u|]; [|discriminate].
  apply List.filter_In in Hp as [_ Hne].
  apply negb_true_iff, Z.eqb_neq in Hne. congruence.
Qed.

(** C1: for a query with both an origin and a radius, every record of the
    result has a location whose distance to the origin is at most the
    radius, the result is ranked by ascending distance with ties by
    ascending identity, and no record without a location is in it. *)
Theorem distance_query_is_bounded_and_ranked
    (uid : option Z) (origin : Coord) (radius : Q)
    (sk nm pos : option string) (objects : list Profile) :
  let results :=
    search_queryset great_circle uid
      {| cd_location := Some origin; cd_skills := sk; cd_name := nm;
         cd_position := pos; cd_location_range := Some radius |} objects in
  Forall (fun p => exists c, location p = Some c /\
                             (great_circle origin c <= radius)%Q) results
  /\ StronglySorted (ranked_before great_circle origin) results
  /\ Forall (fun p => location p <> None) results.
Proof.
  intros results. subst results. unfold search_queryset, filter_location.
  cbn [cd_location cd_location_range cd_skills cd_name cd_position].
  match goal with
  | |- context [search_by_distance _ _ _ ?us] =>
      destruct (search_by_distance_sound origin radius us) as [Hall Hsorted]
  end.
  assert (Hloc : forall us,
    Forall (fun p => In p us /\ exists c, location p = Some c /\
                       (great_circle origin c <= radius)%Q)
      (search_by_distance great_circle origin (Some radius) us) ->
    Forall (fun p => exists c, location p = Some c /\
                       (great_circle origin c <= radius)%Q)
      (search_by_distance great_circle origin (Some radius) us)).
  { intros us H. eapply List.Forall_impl; [|exact H]. intros p [_ Hp]. exact Hp. }
  split; [apply Hloc, Hall|]. split; [exact Hsorted|].
  eapply List.Forall_impl; [|exact Hall].
  intros p [_ [c [Hc _]]]. congruence.
Qed.

(** *** Every stage is a filter by its per-record test *)

Lemma filter_skills_ok (cd : SearchData) (users : list Profile) :
  filter_skills (cd_skills cd) users = List.filter (skills_ok cd) users.
Proof.
  unfold filter_skills, skills_ok. destruct (cd_skills cd) as [s|].
  - destruct (PyStr.truthy (Some s)).
    + apply filter_tags_forallb.
    + symmetry. apply filter_true.
  - symmetry. apply filter_true.
Qed.

Lemma filter_role_ok (cd : SearchData) (users : list Profile) :
  filter_role (cd_position cd) users = List.filter (role_ok cd) users.
Proof.
  unfold filter_role, role_ok. destruct (cd_position cd) as [s|].
  - destruct (PyStr.truthy (Some s)); [reflexivity|].
    symmetry. apply filter_true.
  - symmetry. apply filter_true.
Qed.

Lemma filter_name_ok (cd : SearchData) (users : list Profile) :
  filter_name (cd_name cd) users = List.filter (name_ok cd) users.
Proof.
  unfold filter_name, name_ok. destruct (cd_name cd) as [s|].
  - destruct (PyStr.truthy (Some s)); [reflexivity|].
    symmetry. apply filter_true.
  - symmetry. apply filter_true.
Qed.

Lemma decorate_filter (origin : Coord) (radius : Q) (users : list Profile) :
  List.filter (fun dp => Qle_bool (fst dp) radius)
              (decorate great_circle origin users)
  = decorate great_circle origin
      (List.filter (fun p => match location p with
                             | Some c => Qle_bool (great_circle origin c) radius
                             | None => false
                             end) users).
Proof.
  induction users as [|p users IH]; simpl; [reflexivity|].
  destruct (location p) as [c|] eqn:E; simpl.
  - destruct (Qle_bool (great_circle origin c) radius); simpl; rewrite ?E, IH;
      reflexivity.
  - exact IH.
Qed.

Lemma filter_location_ok (cd : SearchData) (users : list Profile) :
  filter_location great_circle (cd_location cd) (cd_location_range cd) users
  = rank_spec great_circle cd (List.filter (distance_ok great_circle cd) users).
Proof.
  unfold filter_location, rank_spec, distance_ok, search_by_distance.
  destruct (cd_location cd) as [o|]; [|symmetry; apply filter_true].
  destruct (cd_location_range cd) as [r|]; [|symmetry; apply filter_true].
  rewrite decorate_filter. reflexivity.
Qed.

(** C5: testing each record by role, name, skills and distance, in the
    order of the specification, and ranking the survivors gives exactly the
    sequence the view builds by filtering on skills, role, name and distance
    in turn. *)
Theorem filter_order_is_irrelevant
    (uid : option Z) (cd : SearchData) (objects : list Profile) :
  search_spec_order great_circle uid cd objects
  = search_queryset great_circle uid cd objects.
Proof.
  unfold search_spec_order, search_queryset.
  rewrite filter_location_ok, filter_name_ok, filter_role_ok, filter_skills_ok.
  rewrite !filter_filter. f_equal. apply List.filter_ext.
  intros p. unfold passes_spec_order.
  destruct (role_ok cd p), (name_ok cd p), (skills_ok cd p); reflexivity.
Qed.

End SearchProperties.

Lemma empty_query_lists_everyone_else_witness :
  search_queryset Sample.grid_distance (Some 1)
    {| cd_location := None; cd_skills := Some ""; cd_name := Some "";
       cd_position := Some ""; cd_location_range := None |} Sample.directory
  = [Sample.B; Sample.C]
  /\ search Sample.grid_distance Sample.text_form Sample.directory
            Sample.blank_request
     = {| searched := true; search_results := Some [Sample.B; Sample.C] |}.
Proof.
  destruct (empty_query_lists_everyone_else
              Sample.grid_distance Sample.text_form (Some 1)
              {| cd_location := None; cd_skills := Some ""; cd_name := Some "";
                 cd_position := Some ""; cd_location_range := None |}
              Sample.directory eq_refl eq_refl eq_refl eq_refl) as [Hq Hview].
  split; [exact Hq|].
  apply (Hview Sample.blank_request); [discriminate | reflexivity].
Defined.

Example ranking_by_grid_distance :
  search_by_distance Sample.grid_distance {| lat := 0; lng := 0 |} (Some 2%Q)
    [Sample.B; Sample.C; Sample.A] = [Sample.A; Sample.B].
Proof. reflexivity. Qed.

(** ** The quota limiter *)

Section QuotaProperties.

Variable cfg : QuotaConfig.

Lemma sendTimestamps_insert (q : Limiter) (i : Z) (ts : list Z) :
  sendTimestamps (<[i := ts]> q) i = ts.
Proof. unfold sendTimestamps. rewrite lookup_insert_eq. reflexivity. Qed.

Lemma sendTimestamps_insert_ne (q : Limiter) (i j : Z) (ts : list Z) :
  i <> j -> sendTimestamps (<[i := ts]> q) j = sendTimestamps q j.
Proof. intros H. unfold sendTimestamps. rewrite lookup_insert_ne; auto. Qed.

Lemma prune_later (t t' : Z) (ts : list Z) :
  t <= t' -> prune cfg t' (prune cfg t ts) = prune cfg t' ts.
Proof.
  intros Hle. unfold prune. rewrite filter_filter. apply List.filter_ext.
  intros x.
  destruct (t' - windowDuration cfg <=? x) eqn:E; [|apply andb_false_r].
  rewrite andb_true_r. apply Z.leb_le. apply Z.leb_le in E. lia.
Qed.

Lemma prune_app (t : Z) (l1 l2 : list Z) :
  prune cfg t (l1 ++ l2) = (prune cfg t l1 ++ prune cfg t l2)%list.
Proof. apply List.filter_app. Qed.

Lemma canSend_timestamps (q : Limiter) (i t : Z) :
  sendTimestamps (fst (canSend cfg q i t)) i = prune cfg t (sendTimestamps q i).
Proof. apply sendTimestamps_insert. Qed.

Lemma canSend_other (q : Limiter) (i j t : Z) :
  i <> j -> fst (canSend cfg q i t) !! j = q !! j.
Proof. intros H. simpl. apply lookup_insert_ne, H. Qed.

Lemma canSend_answer (q : Limiter) (i t : Z) :
  snd (canSend cfg q i t) =
  if (length (prune cfg t (sendTimestamps q i)) <? maxSendsPerWindow cfg)%nat
  then Allowed else Throttled.
Proof. reflexivity. Qed.

Lemma recordSend_timestamps (q : Limiter) (i t : Z) :
  sendTimestamps (recordSend cfg q i t) i
  = (prune cfg t (sendTimestamps q i) ++ [t])%list.
Proof. apply sendTimestamps_insert. Qed.

Lemma recordSend_other (q : Limiter) (i j t : Z) :
  i <> j -> recordSend cfg q i t !! j = q !! j.
Proof. intros H. apply lookup_insert_ne, H. Qed.

(** the two outcomes of the check-then-record pair, read off the sender's
    own timestamps *)
Lemma tryRecordSend_allowed (q : Limiter) (i t : Z) (ts : list Z) :
  sendTimestamps q i = ts ->
  (length (prune cfg t ts) < maxSendsPerWindow cfg)%nat ->
  snd (tryRecordSend cfg q i t) = Allowed /\
  sendTimestamps (fst (tryRecordSend cfg q i t)) i = (prune cfg t ts ++ [t])%list.
Proof.
  intros Hts Hlt. unfold tryRecordSend, canSend. rewrite Hts.
  apply Nat.ltb_lt in Hlt. rewrite Hlt. simpl. split; [reflexivity|].
  rewrite recordSend_timestamps, sendTimestamps_insert, prune_later by lia.
  reflexivity.
Qed.

Lemma tryRecordSend_throttled (q : Limiter) (i t : Z) (ts : list Z) :
  sendTimestamps q i = ts ->
  (maxSendsPerWindow cfg <= length (prune cfg t ts))%nat ->
  snd (tryRecordSend cfg q i t) = Throttled /\
  sendTimestamps (fst (tryRecordSend cfg q i t)) i = prune cfg t ts.
Proof.
  intros Hts Hge. unfold tryRecordSend, canSend. rewrite Hts.
  apply Nat.ltb_ge in Hge. rewrite Hge. simpl. split; [reflexivity|].
  apply sendTimestamps_insert.
Qed.

(** C9: [canSend] records nothing.  The sender's timestamps after the call
    are the pruned timestamps from before, other identities are untouched,
    asking again at the same instant gives the same answer and the same
    state, and any later [canSend], for any identity, answers as it would
    have without the call. *)
Theorem canSend_is_a_query (q : Limiter) (i t : Z) :
  sendTimestamps (fst (canSend cfg q i t)) i = prune cfg t (sendTimestamps q i)
  /\ (forall x, In x (sendTimestamps (fst (canSend cfg q i t)) i) ->
                In x (sendTimestamps q i))
  /\ (forall j, j <> i -> fst (canSend cfg q i t) !! j = q !! j)
  /\ canSend cfg (fst (canSend cfg q i t)) i t = canSend cfg q i t
  /\ (forall j t', t <= t' ->
        snd (canSend cfg (fst (canSend cfg q i t)) j t') = snd (canSend cfg q j t')).
Proof.
  split; [apply canSend_timestamps|].
  split.
  { intros x. rewrite canSend_timestamps. unfold prune.
    rewrite List.filter_In. tauto. }
  split; [intros j Hj; apply canSend_other; auto|].
  split.
  - unfold canSend at 1 3. rewrite canSend_timestamps, prune_later by lia.
    simpl. rewrite insert_insert_eq. reflexivity.
  - intros j t' Hle. rewrite !canSend_answer.
    destruct (Z.eq_dec i j) as [->|Hne].
    + rewrite canSend_timestamps, prune_later by exact Hle. reflexivity.
    + simpl. rewrite sendTimestamps_insert_ne by exact Hne. reflexivity.
Qed.

End QuotaProperties.

Lemma canSend_is_a_query_witness :
  let cfg := {| windowDuration := 60; maxSendsPerWindow := 1 |} in
  let q : Limiter := {[ 7 := [0; 50] ]} in
  snd (canSend cfg (fst (canSend cfg q 7 100)) 7 100) = Throttled
  /\ snd (canSend cfg (fst (canSend cfg q 7 100)) 7 111) = Allowed.
Proof.
  intros cfg q.
  destruct (canSend_is_a_query cfg q 7 100) as (_ & _ & _ & Hsame & Hlater).
  split.
  - rewrite Hsame. reflexivity.
  - rewrite (Hlater 7 111) by lia. reflexivity.
Defined.

(** The instant of the later call matters: after a check at 100 has pruned
    the entry of instant 0, a check at the earlier instant 50 is answered
    differently than it would have been. *)
Remark canSend_earlier_instant_differs :
  let cfg := {| windowDuration := 60; maxSendsPerWindow := 1 |} in
  let q : Limiter := {[ 7 := [0] ]} in
  snd (canSend cfg q 7 50) = Throttled
  /\ snd (canSend cfg (fst (canSend cfg q 7 100)) 7 50) = Allowed.
Proof. vm_compute. split; reflexivity. Qed.

(** C3: three sends per sixty seconds.  Starting from an empty table, the
    check-then-record pair answers Allowed at 0, 10 and 20, Throttled at 30,
    and Allowed again at 61, when the entry of instant 0 has left the
    window. *)
Theorem three_sends_per_minute (identity : Z) :
  let cfg := {| windowDuration := 60; maxSendsPerWindow := 3 |} in
  let r1 := tryRecordSend cfg ∅ identity 0 in
  let r2 := tryRecordSend cfg (fst r1) identity 10 in
  let r3 := tryRecordSend cfg (fst r2) identity 20 in
  let r4 := tryRecordSend cfg (fst r3) identity 30 in
  let r5 := tryRecordSend cfg (fst r4) identity 61 in
  (snd r1, snd r2, snd r3, snd r4, snd r5)
  = (Allowed, Allowed, Allowed, Throttled, Allowed)
  /\ sendTimestamps (fst r4) identity = [0; 10; 20]
  /\ sendTimestamps (fst r5) identity = [10; 20; 61].
Proof.
  intros cfg r1 r2 r3 r4 r5.
  destruct (tryRecordSend_allowed cfg ∅ identity 0 [])
    as [A1 T1]; [reflexivity | simpl; lia |].
  destruct (tryRecordSend_allowed cfg (fst r1) identity 10 _ T1)
    as [A2 T2]; [simpl; lia|].
  destruct (tryRecordSend_allowed cfg (fst r2) identity 20 _ T2)
    as [A3 T3]; [simpl; lia|].
  destruct (tryRecordSend_throttled cfg (fst r3) identity 30 _ T3)
    as [A4 T4]; [simpl; lia|].
  destruct (tryRecordSend_allowed cfg (fst r4) identity 61 _ T4)
    as [A5 T5]; [simpl; lia|].
  subst r1 r2 r3 r4 r5. rewrite A1, A2, A3, A4, A5, T4, T5.
  repeat split.
Qed.

(** ** The window guarantee *)

Section WindowGuarantee.

Variable cfg : QuotaConfig.

Lemma filter_sublist {A} (f : A -> bool) (l : list A) :
  sublist (List.filter f l) l.
Proof.
  induction l as [|x l IH]; simpl; [constructor|].
  destruct (f x); [apply sublist_skip | apply sublist_cons]; exact IH.
Qed.

Lemma sublist_filter {A} (f : A -> bool) (l1 l2 : list A) :
  sublist l1 l2 -> sublist (List.filter f l1) (List.filter f l2).
Proof.
  induction 1 as [|x l1 l2 _ IH|x l1 l2 _ IH]; simpl.
  - constructor.
  - destruct (f x); [apply sublist_skip|]; exact IH.
  - destruct (f x); [apply sublist_cons|]; exact IH.
Qed.

Lemma filter_length_mono {A} (f g : A -> bool) (l : list A) :
  (forall x, f x = true -> g x = true) ->
  (length (List.filter f l) <= length (List.filter g l))%nat.
Proof.
  intros H. induction l as [|x l IH]; simpl; [lia|].
  destruct (f x) eqn:E.
  - rewrite (H x E). simpl. lia.
  - destruct (g x); simpl; lia.
Qed.

Lemma clock_ok_step (a : Audit) (t t' : Z) :
  clock_ok a t = true -> t <= t' -> clock_ok a t' = true.
Proof.
  unfold clock_ok. destruct (au_clock a); [|reflexivity].
  rewrite !Z.leb_le. lia.
Qed.

Lemma permit_consumed (s : gset Z) (i : Z) : i ∈ s ∖ {[i]} -> False.
Proof.
  intros H. apply elem_of_difference in H as [_ H].
  apply H, elem_of_singleton. reflexivity.
Qed.

Lemma permit_kept (s : gset Z) (i j : Z) : j ∈ s ∖ {[i]} -> j ∈ s.
Proof. intros H. apply elem_of_difference in H as [H _]. exact H. Qed.

Lemma permit_granted_other (s : gset Z) (i j : Z) :
  i <> j -> j ∈ {[i]} ∪ s -> j ∈ s.
Proof.
  intros Hne H. apply elem_of_union in H as [H|H]; [|exact H].
  apply elem_of_singleton in H. congruence.
Qed.

Lemma audit_inv_start : audit_inv cfg audit0 (fun _ => []).
Proof.
  split.
  - reflexivity.
  - intros i. constructor.
  - intros i T. simpl. lia.
  - intros i t Hi. simpl in Hi. apply not_elem_of_empty in Hi. contradiction.
Qed.

Lemma audit_step_canSend (a a' : Audit) (h : Z -> list Z) (i t : Z) :
  audit_step cfg a (CanSend i t) = Some a' ->
  audit_inv cfg a h -> audit_inv cfg a' h.
Proof.
  unfold audit_step. simpl op_time.
  destruct (clock_ok a t) eqn:Hclock; [|discriminate].
  intros Hstep [Hrecent Hsub Hwin Hpermit].
  assert (Hlim : au_limiter a' = fst (canSend cfg (au_limiter a) i t))
    by (destruct (canSend cfg (au_limiter a) i t) as [q [|]];
        inversion Hstep; reflexivity).
  assert (Hclk : au_clock a' = Some t)
    by (destruct (canSend cfg (au_limiter a) i t) as [q [|]];
        inversion Hstep; reflexivity).
  assert (Hlater : forall t', clock_ok a' t' = true ->
                              t <= t' /\ clock_ok a t' = true).
  { intros t' H'. unfold clock_ok in H'. rewrite Hclk in H'.
    apply Z.leb_le in H'. split; [exact H'|].
    eapply clock_ok_step; eassumption. }
  assert (Hts : forall j, sendTimestamps (au_limiter a') j =
            if Z.eq_dec i j then prune cfg t (sendTimestamps (au_limiter a) j)
            else sendTimestamps (au_limiter a) j).
  { intros j. rewrite Hlim. destruct (Z.eq_dec i j) as [->|Hne].
    - apply canSend_timestamps.
    - simpl. apply sendTimestamps_insert_ne, Hne. }
  split.
  - intros j t' x Hc Hx. apply Hlater in Hc as [Hle Hc].
    rewrite Hts. destruct (Z.eq_dec i j) as [->|Hne]; [|eapply Hrecent; eauto].
    unfold prune. rewrite filter_filter.
    rewrite <- (Hrecent j t' x Hc Hx). apply List.filter_ext.
    intros e. destruct (x <=? e) eqn:E; [|apply andb_false_r].
    rewrite andb_true_r. apply Z.leb_le. apply Z.leb_le in E. lia.
  - intros j. rewrite Hts. destruct (Z.eq_dec i j) as [->|Hne]; [|apply Hsub].
    etrans; [apply filter_sublist | apply Hsub].
  - exact Hwin.
  - intros j t' Hj Hc. apply Hlater in Hc as [Hle Hc].
    destruct (Z.eq_dec i j) as [->|Hne].
    + destruct (canSend cfg (au_limiter a) j t) as [q ans] eqn:Hcan.
      assert (Hans : ans = snd (canSend cfg (au_limiter a) j t))
        by (rewrite Hcan; reflexivity).
      rewrite canSend_answer in Hans.
      destruct ans; inversion Hstep as [Ha']; subst a'; simpl in Hj.
      * destruct (_ <? _)%nat eqn:Hlt in Hans; [|discriminate].
        apply Nat.ltb_lt in Hlt.
        assert (Heq : prune cfg t (sendTimestamps (au_limiter a) j)
                      = prune cfg t (h j)).
        { unfold prune. apply (Hrecent j t); [exact Hclock | lia]. }
        rewrite Heq in Hlt.
        eapply Nat.le_lt_trans; [|exact Hlt].
        apply filter_length_mono. intros e. rewrite !Z.leb_le. lia.
      * exfalso. eapply permit_consumed, Hj.
    + apply Hpermit; [|exact Hc].
      destruct (canSend cfg (au_limiter a) i t) as [q [|]];
        injection Hstep as <-; simpl in Hj.
      * eapply permit_granted_other; eassumption.
      * eapply permit_kept, Hj.
Qed.

Lemma audit_step_recordSend (a a' : Audit) (h : Z -> list Z) (i t : Z) :
  audit_step cfg a (RecordSend i t) = Some a' ->
  audit_inv cfg a h ->
  audit_inv cfg a' (fun j => if Z.eq_dec i j then (h j ++ [t])%list else h j).
Proof.
  unfold audit_step. simpl op_time.
  destruct (clock_ok a t) eqn:Hclock; [|discriminate].
  destruct (bool_decide (i ∈ au_permits a)) eqn:Hperm; [|discriminate].
  apply bool_decide_eq_true in Hperm.
  intros Hstep [Hrecent Hsub Hwin Hpermit].
  injection Hstep as Ha'.
  assert (Hlater : forall t', clock_ok a' t' = true ->
                              t <= t' /\ clock_ok a t' = true).
  { intros t' H'. subst a'. unfold clock_ok in H'. simpl in H'.
    apply Z.leb_le in H'. split; [exact H'|].
    eapply clock_ok_step; eassumption. }
  assert (Hts : forall j, sendTimestamps (au_limiter a') j =
            if Z.eq_dec i j
            then (prune cfg t (sendTimestamps (au_limiter a) j) ++ [t])%list
            else sendTimestamps (au_limiter a) j).
  { intros j. subst a'. simpl. destruct (Z.eq_dec i j) as [->|Hne].
    - apply recordSend_timestamps.
    - apply sendTimestamps_insert_ne, Hne. }
  split.
  - intros j t' x Hc Hx. apply Hlater in Hc as [Hle Hc].
    rewrite Hts. destruct (Z.eq_dec i j) as [->|Hne]; [|eapply Hrecent; eauto].
    rewrite !List.filter_app. f_equal.
    unfold prune. rewrite filter_filter.
    rewrite <- (Hrecent j t' x Hc Hx). apply List.filter_ext.
    intros e. destruct (x <=? e) eqn:E; [|apply andb_false_r].
    rewrite andb_true_r. apply Z.leb_le. apply Z.leb_le in E. lia.
  - intros j. rewrite Hts. destruct (Z.eq_dec i j) as [->|Hne]; [|apply Hsub].
    apply sublist_app; [|reflexivity].
    etrans; [apply filter_sublist | apply Hsub].
  - intros j T. destruct (Z.eq_dec i j) as [->|Hne]; [|apply Hwin].
    unfold in_window. rewrite List.filter_app, length_app. simpl.
    destruct ((T - windowDuration cfg <=? t) && (t <=? T)) eqn:E; simpl.
    + apply andb_true_iff in E as [E1 E2]. apply Z.leb_le in E1, E2.
      specialize (Hpermit j t Hperm Hclock).
      assert ((length (in_window cfg T (h j))
               <= length (prune cfg t (h j)))%nat) as Hroom.
      { apply filter_length_mono. intros e He.
        apply andb_true_iff in He as [He _].
        apply Z.leb_le. apply Z.leb_le in He. lia. }
      unfold in_window in Hroom. lia.
    + specialize (Hwin j T). unfold in_window in Hwin. lia.
  - intros j t' Hj Hc. apply Hlater in Hc as [Hle Hc].
    subst a'. simpl in Hj.
    destruct (Z.eq_dec i j) as [->|Hne]; [exfalso; eapply permit_consumed, Hj|].
    apply Hpermit; [eapply permit_kept, Hj | exact Hc].
Qed.

Lemma sent_cons_canSend (i t : Z) (ops : list Op) (j : Z) :
  sent (CanSend i t :: ops) j = sent ops j.
Proof. reflexivity. Qed.

Lemma audit_inv_ext (a : Audit) (h h' : Z -> list Z) :
  (forall j, h j = h' j) -> audit_inv cfg a h -> audit_inv cfg a h'.
Proof.
  intros Heq [H1 H2 H3 H4]. split.
  - intros i t x Hc Hx. rewrite <- Heq. eapply H1; eassumption.
  - intros i. rewrite <- Heq. apply H2.
  - intros i T. rewrite <- Heq. apply H3.
  - intros i t Hi Hc. rewrite <- Heq. apply H4; assumption.
Qed.

Lemma audit_preserves (ops : list Op) :
  forall (a a' : Audit) (h : Z -> list Z),
    audit cfg a ops = Some a' -> audit_inv cfg a h ->
    audit_inv cfg a' (fun j => (h j ++ sent ops j)%list)
    /\ au_limiter a' = run cfg (au_limiter a) ops.
Proof.
  induction ops as [|op ops IH]; intros a a' h Hrun Hinv; simpl in Hrun.
  - inversion Hrun; subst a'. split; [|reflexivity].
    eapply audit_inv_ext; [|exact Hinv].
    intros j. simpl. rewrite app_nil_r. reflexivity.
  - destruct (audit_step cfg a op) as [a1|] eqn:Hstep; [|discriminate].
    assert (Hlim : au_limiter a1 = exec cfg (au_limiter a) op).
    { unfold audit_step in Hstep.
      destruct (clock_ok a (op_time op)); [|discriminate].
      destruct op as [i t|i t]; cbn [exec].
      - destruct (canSend cfg (au_limiter a) i t) as [q [|]];
          injection Hstep as <-; reflexivity.
      - destruct (bool_decide _); [|discriminate].
        injection Hstep as <-; reflexivity. }
    destruct op as [i t|i t].
    + destruct (IH a1 a' h Hrun (audit_step_canSend _ _ _ _ _ Hstep Hinv))
        as [Hinv' Hrun'].
      split; [exact Hinv'|]. rewrite Hrun', Hlim. reflexivity.
    + destruct (IH a1 a' _ Hrun (audit_step_recordSend _ _ _ _ _ Hstep Hinv))
        as [Hinv' Hrun'].
      split; [|rewrite Hrun', Hlim; reflexivity].
      eapply audit_inv_ext; [|exact Hinv'].
      intros j. simpl.
      destruct (Z.eq_dec i j) as [->|Hne].
      * rewrite Z.eqb_refl, <- app_assoc. reflexivity.
      * apply Z.eqb_neq in Hne. rewrite Hne. reflexivity.
Qed.

(** C2: along any sequence of limiter operations whose clock never runs
    backwards and in which every [recordSend] consumes an [Allowed] answer
    that its identity obtained since its previous [recordSend], no trailing
    window of [windowDuration] holds more than [maxSendsPerWindow] of an
    identity's recorded instants; this holds of everything ever recorded and
    of the timestamps kept in the table. *)
Theorem window_never_overfull (ops : list Op) (identity T : Z) :
  paired cfg ops = true ->
  (length (in_window cfg T (sent ops identity)) <= maxSendsPerWindow cfg)%nat
  /\ (length (in_window cfg T (sendTimestamps (run cfg ∅ ops) identity))
      <= maxSendsPerWindow cfg)%nat.
Proof.
  unfold paired. destruct (audit cfg audit0 ops) as [a|] eqn:Hrun; [|discriminate].
  intros _.
  destruct (audit_preserves ops audit0 a (fun _ => []) Hrun audit_inv_start)
    as [[_ Hsub Hwin _] Hlim].
  simpl in Hlim. rewrite <- Hlim.
  specialize (Hwin identity T). specialize (Hsub identity). simpl in Hwin, Hsub.
  split; [exact Hwin|].
  etrans; [|exact Hwin].
  apply sublist_length, sublist_filter, Hsub.
Qed.

End WindowGuarantee.

Lemma window_never_overfull_witness :
  paired Sample.three_per_minute Sample.five_attempts = true
  /\ (length (in_window Sample.three_per_minute 61
                (sent Sample.five_attempts 7)) <= 3)%nat
  /\ (length (in_window Sample.three_per_minute 61
                (sendTimestamps
                   (run Sample.three_per_minute ∅ Sample.five_attempts) 7))
      <= 3)%nat.
Proof.
  split; [vm_compute; reflexivity|].
  apply (window_never_overfull Sample.three_per_minute Sample.five_attempts 7 61).
  vm_compute; reflexivity.
Defined.

(** The discipline is needed: when a second check is answered before the
    first send is recorded, both sends go through and the window holds two
    instants against a limit of one.  Such a sequence is not [paired]. *)
Remark racing_pairs_overfill :
  let cfg := {| windowDuration := 60; maxSendsPerWindow := 1 |} in
  paired cfg Sample.racing_pairs = false
  /\ in_window cfg 0 (sent Sample.racing_pairs 7) = [0; 0]
  /\ sendTimestamps (run cfg ∅ Sample.racing_pairs) 7 = [0; 0].
Proof. vm_compute. repeat split. Qed.

(** ** The contact view *)

Section ContactProperties.

Variable cfg : QuotaConfig.
Variable UserContactForm : QueryDict -> option (string * string).
Variable render_to_string : string -> ContactData -> string.

(** C10: a logged-in sender whose e-mail address is empty is turned away
    before the quota is consulted: the response is a 404 (unknown recipient)
    or the redirect to the profile editor with a warning, and the mailbox,
    the signal log and the quota table are exactly as before. *)
Theorem contact_without_email_sends_nothing
    (request : ContactRequest) (name : string) (me : User) (w : World) :
  request_user request = Some me ->
  email me = "" ->
  let (response, w') :=
    contact cfg UserContactForm render_to_string request name w in
  outbox w' = outbox w
  /\ signals w' = signals w
  /\ quota w' = quota w
  /\ (response = Http404 /\ w' = w
      \/ response = Redirect "edit_profile" [] /\
         flash w' = (flash w ++ [(Warning,
           "You must set a valid email address prior to emailing other users.")])%list).
Proof.
  intros Hme Hmail. unfold contact. rewrite Hme, Hmail.
  unfold bind, get_object_or_404.
  destruct (List.find _ (accounts w)) as [to|]; simpl.
  - repeat split. right. split; reflexivity.
  - repeat split. left. split; reflexivity.
Qed.

End ContactProperties.

Lemma contact_without_email_sends_nothing_witness :
  let (response, w') :=
    contact Sample.three_per_minute Sample.contact_form Sample.templates
            (Sample.post Sample.carol 5) "alice" Sample.world in
  outbox w' = outbox Sample.world
  /\ signals w' = signals Sample.world
  /\ quota w' = quota Sample.world
  /\ (response = Http404 /\ w' = Sample.world
      \/ response = Redirect "edit_profile" [] /\
         flash w' = (flash Sample.world ++ [(Warning,
           "You must set a valid email address prior to emailing other users.")])%list).
Proof.
  apply (contact_without_email_sends_nothing
           Sample.three_per_minute Sample.contact_form Sample.templates
           (Sample.post Sample.carol 5) "alice" Sample.carol Sample.world);
    reflexivity.
Defined.

Example contact_with_email_sends :
  let (response, w') :=
    contact Sample.three_per_minute Sample.contact_form Sample.templates
            (Sample.post Sample.bob 5) "alice" Sample.world in
  response = Redirect "user_profile" ["alice"]
  /\ map mail_subject (outbox w') = ["hello"]
  /\ map mail_from (outbox w') = ["bob@example.org"]
  /\ length (signals w') = 1%nat
  /\ sendTimestamps (quota w') 2 = [5].
Proof. vm_compute. repeat split. Qed.

(** * Further properties of the views *)

(** ** Skill tags *)

Lemma icontains_empty (s : string) : PyStr.icontains "" s = true.
Proof. apply icontains_iff. exists "", (PyStr.lower s). reflexivity. Qed.

Lemma split_app_sep (sep : ascii) (s t : string) :
  PyStr.split sep (s ++ String sep t)
  = (PyStr.split sep s ++ PyStr.split sep t)%list.
Proof.
  induction s as [|c s IH].
  - rewrite append_empty. cbn [PyStr.split]. rewrite Ascii.eqb_refl. reflexivity.
  - rewrite append_String. cbn [PyStr.split].
    destruct (Ascii.eqb c sep); rewrite IH; [reflexivity|].
    destruct (PyStr.split sep s) as [|w ws] eqn:E; [|reflexivity].
    destruct s; cbn [PyStr.split] in E; [discriminate|].
    destruct (Ascii.eqb _ sep); [discriminate|].
    destruct (PyStr.split sep s); discriminate.
Qed.

Lemma filter_tags_app (l1 l2 : list string) (users : list Profile) :
  filter_tags (l1 ++ l2) users = filter_tags l2 (filter_tags l1 users).
Proof. unfold filter_tags. apply fold_left_app. Qed.

(** the emptiness test of line 37 changes nothing: the one tag of an empty
    field matches every record *)
Lemma filter_skills_tags (field : string) (users : list Profile) :
  filter_skills (Some field) users = filter_tags (tags_of field) users.
Proof.
  destruct field as [|c field]; [|reflexivity].
  cbn. symmetry. rewrite <- (filter_true users) at 2.
  apply List.filter_ext. intros p. apply icontains_empty.
Qed.

(** X1: a comma in the skills field is a conjunction: searching for
    [f,g] keeps exactly the records that a search for [g] keeps among those a
    search for [f] keeps.  In particular a trailing, leading or doubled comma
    restricts nothing. *)
Theorem skills_comma_composes (f g : string) (users : list Profile) :
  filter_skills (Some (f ++ "," ++ g)) users
  = filter_skills (Some g) (filter_skills (Some f) users).
Proof.
  rewrite !filter_skills_tags. unfold tags_of.
  change ("," ++ g) with (String "," g).
  rewrite split_app_sep, map_app. apply filter_tags_app.
Qed.

(** X2: the result of the skill stage depends on the set of requested tags
    only, not on their order or on repetitions. *)
Theorem skills_order_is_irrelevant (f g : string) (users : list Profile) :
  (forall tag, In tag (tags_of f) <-> In tag (tags_of g)) ->
  filter_skills (Some f) users = filter_skills (Some g) users.
Proof.
  intros Hsame. rewrite !filter_skills_tags, !filter_tags_forallb.
  apply List.filter_ext. intros p.
  apply eq_true_iff_eq. rewrite !forallb_forall.
  split; intros H tag Htag; apply H, Hsame, Htag.
Qed.

Lemma skills_order_is_irrelevant_witness :
  filter_skills (Some "go, rust") Sample.directory
  = filter_skills (Some "rust,go,go") Sample.directory.
Proof.
  apply (skills_order_is_irrelevant "go, rust" "rust,go,go" Sample.directory).
  intros tag. simpl. tauto.
Defined.

(** ** Case folding *)

Lemma lower_ascii_idem (c : ascii) :
  PyStr.lower_ascii (PyStr.lower_ascii c) = PyStr.lower_ascii c.
Proof. destruct c as [[] [] [] [] [] [] [] []]; reflexivity. Qed.

Lemma lower_ascii_space (c : ascii) :
  PyStr.is_space (PyStr.lower_ascii c) = PyStr.is_space c.
Proof. destruct c as [[] [] [] [] [] [] [] []]; reflexivity. Qed.

Lemma lower_ascii_comma (c : ascii) :
  Ascii.eqb (PyStr.lower_ascii c) "," = Ascii.eqb c ",".
Proof. destruct c as [[] [] [] [] [] [] [] []]; reflexivity. Qed.

Lemma lower_idem (s : string) : PyStr.lower (PyStr.lower s) = PyStr.lower s.
Proof.
  induction s as [|c s IH]; simpl; [reflexivity|].
  rewrite lower_ascii_idem, IH. reflexivity.
Qed.

Lemma lower_split (s : string) :
  PyStr.split "," (PyStr.lower s) = map PyStr.lower (PyStr.split "," s).
Proof.
  induction s as [|c s IH]; [reflexivity|].
  cbn [PyStr.lower PyStr.split]. rewrite lower_ascii_comma, IH.
  destruct (Ascii.eqb c ","); [reflexivity|].
  destruct (PyStr.split "," s); reflexivity.
Qed.

Lemma lower_lstrip (s : string) :
  PyStr.lstrip (PyStr.lower s) = PyStr.lower (PyStr.lstrip s).
Proof.
  induction s as [|c s IH]; [reflexivity|].
  cbn [PyStr.lower PyStr.lstrip]. rewrite lower_ascii_space.
  destruct (PyStr.is_space c); [exact IH | reflexivity].
Qed.

Lemma lower_rstrip (s : string) :
  PyStr.rstrip (PyStr.lower s) = PyStr.lower (PyStr.rstrip s).
Proof.
  induction s as [|c s IH]; [reflexivity|].
  cbn [PyStr.lower PyStr.rstrip]. rewrite IH, lower_ascii_space.
  destruct (PyStr.rstrip s); [destruct (PyStr.is_space c)|]; reflexivity.
Qed.

Lemma lower_tags_of (field : string) :
  tags_of (PyStr.lower field) = map PyStr.lower (tags_of field).
Proof.
  unfold tags_of, PyStr.strip. rewrite lower_split, !map_map.
  apply map_ext. intros t. rewrite lower_lstrip, lower_rstrip. reflexivity.
Qed.

Lemma filter_tags_lower (tags : list string) (users : list Profile) :
  filter_tags (map PyStr.lower tags) users = filter_tags tags users.
Proof.
  unfold filter_tags. revert users.
  induction tags as [|t ts IH]; intros users; simpl; [reflexivity|].
  rewrite IH. f_equal. apply List.filter_ext. intros p.
  unfold PyStr.icontains. rewrite lower_idem. reflexivity.
Qed.

Lemma lower_empty (s : string) : PyStr.lower s = "" -> s = "".
Proof. destruct s; [reflexivity | discriminate]. Qed.

(** X3: the skills and name filters ignore letter case in the request:
    two fields that agree after case folding select the same records. *)
Theorem search_ignores_request_case (f g : string) (users : list Profile) :
  PyStr.lower f = PyStr.lower g ->
  filter_skills (Some f) users = filter_skills (Some g) users
  /\ filter_name (Some f) users = filter_name (Some g) users.
Proof.
  intros Hfg. split.
  - rewrite !filter_skills_tags.
    rewrite <- (filter_tags_lower (tags_of f)), <- (filter_tags_lower (tags_of g)).
    rewrite <- !lower_tags_of, Hfg. reflexivity.
  - destruct f as [|c f], g as [|d g]; try reflexivity; try discriminate.
    cbn [filter_name PyStr.truthy]. apply List.filter_ext. intros p.
    unfold PyStr.icontains. rewrite Hfg. reflexivity.
Qed.

Lemma search_ignores_request_case_witness :
  filter_skills (Some "PYTHON, MongoDB") Sample.directory
  = filter_skills (Some "python, mongodb") Sample.directory
  /\ filter_name (Some "BoB") Sample.directory
     = filter_name (Some "bob") Sample.directory.
Proof.
  split.
  - apply (search_ignores_request_case "PYTHON, MongoDB" "python, mongodb"
             Sample.directory). reflexivity.
  - apply (search_ignores_request_case "BoB" "bob" Sample.directory).
    reflexivity.
Defined.

(** ** The shape of the tag list *)

Lemma rstrip_idem (s : string) : PyStr.rstrip (PyStr.rstrip s) = PyStr.rstrip s.
Proof.
  induction s as [|c s IH]; [reflexivity|].
  cbn [PyStr.rstrip]. destruct (PyStr.rstrip s) as [|d r] eqn:E.
  - destruct (PyStr.is_space c) eqn:Ec; [reflexivity|].
    cbn [PyStr.rstrip]. rewrite Ec. reflexivity.
  - cbn [PyStr.rstrip] in *. rewrite IH. reflexivity.
Qed.

Lemma lstrip_head (s : string) :
  PyStr.lstrip s = "" \/
  exists c t, PyStr.lstrip s = String c t /\ PyStr.is_space c = false.
Proof.
  induction s as [|c s IH]; [left; reflexivity|].
  cbn [PyStr.lstrip]. destruct (PyStr.is_space c) eqn:Ec; [exact IH|].
  right. exists c, s. split; [reflexivity | exact Ec].
Qed.

Lemma rstrip_head (c : ascii) (t : string) :
  PyStr.is_space c = false -> exists t', PyStr.rstrip (String c t) = String c t'.
Proof.
  intros Ec. cbn [PyStr.rstrip]. destruct (PyStr.rstrip t) as [|d r].
  - rewrite Ec. exists "". reflexivity.
  - exists (String d r). reflexivity.
Qed.

Lemma strip_idem (s : string) : PyStr.strip (PyStr.strip s) = PyStr.strip s.
Proof.
  unfold PyStr.strip. destruct (lstrip_head s) as [E | (c & t & E & Ec)]; rewrite E.
  - reflexivity.
  - destruct (rstrip_head c t Ec) as [t' E']. rewrite E'.
    cbn [PyStr.lstrip]. rewrite Ec, <- E'. apply rstrip_idem.
Qed.

Lemma lstrip_chars (s : string) (c : ascii) :
  In c (list_ascii_of_string (PyStr.lstrip s)) -> In c (list_ascii_of_string s).
Proof.
  induction s as [|d s IH]; [tauto|].
  cbn [PyStr.lstrip]. destruct (PyStr.is_space d); [|tauto].
  intros H. right. apply IH, H.
Qed.

Lemma rstrip_chars (s : string) (c : ascii) :
  In c (list_ascii_of_string (PyStr.rstrip s)) -> In c (list_ascii_of_string s).
Proof.
  induction s as [|d s IH]; [tauto|].
  cbn [PyStr.rstrip]. destruct (PyStr.rstrip s) as [|e r].
  - destruct (PyStr.is_space d); simpl; tauto.
  - simpl in *. tauto.
Qed.

Lemma split_pieces (sep : ascii) (s : string) :
  Forall (fun t => ~ In sep (list_ascii_of_string t)) (PyStr.split sep s)
  /\ length (PyStr.split sep s)
     = S (count_occ ascii_dec (list_ascii_of_string s) sep).
Proof.
  induction s as [|c s [IHp IHn]].
  - split; [repeat constructor; simpl; tauto | reflexivity].
  - cbn [PyStr.split list_ascii_of_string].
    destruct (Ascii.eqb c sep) eqn:E.
    + apply Ascii.eqb_eq in E. subst c. rewrite count_occ_cons_eq by reflexivity.
      split; [constructor; [simpl; tauto | exact IHp] | simpl; lia].
    + apply Ascii.eqb_neq in E. rewrite count_occ_cons_neq by exact E.
      destruct (PyStr.split sep s) as [|w ws]; [discriminate|].
      inversion IHp as [|? ? Hw Hws]; subst.
      split; [|exact IHn].
      constructor; [|exact Hws]. simpl. intros [H|H]; [congruence | tauto].
Qed.

(** ** The requested tags are the tags the view computes *)

Lemma string_app_assoc (a b c : string) : (a ++ b) ++ c = a ++ (b ++ c).
Proof.
  induction a as [|x a IH]; [reflexivity|].
  rewrite !append_String, IH. reflexivity.
Qed.

Lemma string_app_nil (a : string) : a ++ "" = a.
Proof.
  induction a as [|x a IH]; [reflexivity|].
  rewrite append_String, IH. reflexivity.
Qed.

Lemma split_nonempty (sep : ascii) (s : string) : PyStr.split sep s <> [].
Proof.
  destruct s as [|c s]; cbn [PyStr.split]; [discriminate|].
  destruct (Ascii.eqb c sep); [discriminate|].
  destruct (PyStr.split sep s); discriminate.
Qed.

Lemma join_String (sep c : ascii) (w : string) (ws : list string) :
  join sep (String c w :: ws) = String c (join sep (w :: ws)).
Proof. destruct ws; reflexivity. Qed.

Lemma join_split (sep : ascii) (s : string) : join sep (PyStr.split sep s) = s.
Proof.
  induction s as [|c s IH]; [reflexivity|].
  cbn [PyStr.split]. destruct (Ascii.eqb c sep) eqn:E.
  - apply Ascii.eqb_eq in E. subst c.
    destruct (PyStr.split sep s) as [|w ws] eqn:Es;
      [exfalso; exact (split_nonempty _ _ Es)|].
    cbn [join]. rewrite append_empty. cbn [join] in IH. rewrite IH. reflexivity.
  - destruct (PyStr.split sep s) as [|w ws] eqn:Es;
      [exfalso; exact (split_nonempty _ _ Es)|].
    rewrite join_String, IH. reflexivity.
Qed.

Lemma split_one (sep : ascii) (s : string) :
  ~ In sep (list_ascii_of_string s) -> PyStr.split sep s = [s].
Proof.
  induction s as [|c s IH]; [reflexivity|].
  cbn [list_ascii_of_string PyStr.split]. intros H.
  destruct (Ascii.eqb c sep) eqn:E.
  - apply Ascii.eqb_eq in E. exfalso. apply H. left. exact E.
  - rewrite IH; [reflexivity|]. intros Hin. apply H. right. exact Hin.
Qed.

Lemma pieces_split (field : string) : pieces field (PyStr.split "," field).
Proof.
  split; [apply split_nonempty|]. split; [symmetry; apply join_split|].
  apply split_pieces.
Qed.

Lemma pieces_unique (field : string) (ps : list string) :
  pieces field ps -> ps = PyStr.split "," field.
Proof.
  revert field. induction ps as [|p ps IH]; intros field (Hne & Hjoin & Hfree);
    [congruence|].
  apply Forall_cons in Hfree as [Hp Hfree]. subst field.
  destruct ps as [|q ps].
  - cbn [join]. symmetry. apply split_one, Hp.
  - change (join "," (p :: q :: ps)) with (p ++ String "," (join "," (q :: ps))).
    rewrite split_app_sep, (split_one _ _ Hp).
    rewrite <- (IH (join "," (q :: ps))); [reflexivity|].
    split; [discriminate|]. split; [reflexivity | exact Hfree].
Qed.

Lemma lstrip_all_space (s : string) : all_space s = true -> PyStr.lstrip s = "".
Proof.
  induction s as [|c s IH]; [reflexivity|].
  cbn [all_space PyStr.lstrip]. intros H. apply andb_true_iff in H as [Hc Hs].
  rewrite Hc. apply IH, Hs.
Qed.

Lemma rstrip_all_space (s : string) : all_space s = true -> PyStr.rstrip s = "".
Proof.
  induction s as [|c s IH]; [reflexivity|].
  cbn [all_space PyStr.rstrip]. intros H. apply andb_true_iff in H as [Hc Hs].
  rewrite (IH Hs), Hc. reflexivity.
Qed.

Lemma lstrip_app_space (l x : string) :
  all_space l = true -> PyStr.lstrip (l ++ x) = PyStr.lstrip x.
Proof.
  induction l as [|c l IH]; [reflexivity|].
  cbn [all_space]. intros H. apply andb_true_iff in H as [Hc Hl].
  rewrite append_String. cbn [PyStr.lstrip]. rewrite Hc. apply IH, Hl.
Qed.

Lemma rstrip_app_space (x r : string) :
  all_space r = true -> PyStr.rstrip (x ++ r) = PyStr.rstrip x.
Proof.
  intros Hr. induction x as [|c x IH].
  - rewrite append_empty. apply rstrip_all_space, Hr.
  - rewrite append_String. cbn [PyStr.rstrip]. rewrite IH. reflexivity.
Qed.

Lemma rstrip_fixed (x : string) :
  no_space (last_char x) = true -> PyStr.rstrip x = x.
Proof.
  induction x as [|c x IH]; [reflexivity|].
  cbn [PyStr.rstrip]. destruct x as [|d x].
  - cbn. intros H. apply negb_true_iff in H. rewrite H. reflexivity.
  - intros H. change (last_char (String c (String d x)))
      with (last_char (String d x)) in H.
    rewrite (IH H). reflexivity.
Qed.

Lemma lstrip_split (s : string) :
  exists l, s = l ++ PyStr.lstrip s /\ all_space l = true.
Proof.
  induction s as [|c s (l & Hs & Hl)]; [exists ""; split; reflexivity|].
  cbn [PyStr.lstrip]. destruct (PyStr.is_space c) eqn:Ec.
  - exists (String c l). rewrite append_String, <- Hs.
    split; [reflexivity|]. cbn [all_space]. rewrite Ec, Hl. reflexivity.
  - exists "". split; reflexivity.
Qed.

Lemma rstrip_split (s : string) :
  exists r, s = PyStr.rstrip s ++ r /\ all_space r = true.
Proof.
  induction s as [|c s (r & Hs & Hr)]; [exists ""; split; reflexivity|].
  cbn [PyStr.rstrip]. destruct (PyStr.rstrip s) as [|d x] eqn:E.
  - rewrite append_empty in Hs. subst r.
    destruct (PyStr.is_space c) eqn:Ec.
    + exists (String c s). split; [reflexivity|].
      cbn [all_space]. rewrite Ec, Hr. reflexivity.
    + exists s. split; [reflexivity | exact Hr].
  - exists r. rewrite append_String, <- Hs. split; [reflexivity | exact Hr].
Qed.

Lemma rstrip_last (s : string) : no_space (last_char (PyStr.rstrip s)) = true.
Proof.
  induction s as [|c s IH]; [reflexivity|].
  cbn [PyStr.rstrip]. destruct (PyStr.rstrip s) as [|d x].
  - destruct (PyStr.is_space c) eqn:Ec; [reflexivity|].
    cbn. rewrite Ec. reflexivity.
  - exact IH.
Qed.

Lemma strip_trimmed (s : string) : trimmed (PyStr.strip s) = true.
Proof.
  unfold trimmed, PyStr.strip. rewrite rstrip_last, andb_true_r.
  destruct (lstrip_head s) as [E | (c & t & E & Ec)]; rewrite E; [reflexivity|].
  destruct (rstrip_head c t Ec) as [t' E']. rewrite E'. cbn. rewrite Ec.
  reflexivity.
Qed.

Lemma strip_stripped (piece : string) : stripped piece (PyStr.strip piece).
Proof.
  destruct (lstrip_split piece) as (l & Hl & Hls).
  destruct (rstrip_split (PyStr.lstrip piece)) as (r & Hr & Hrs).
  exists l, r. unfold PyStr.strip at 1. rewrite <- Hr, <- Hl.
  repeat split; auto. apply strip_trimmed.
Qed.

Lemma stripped_unique (piece tag : string) :
  stripped piece tag -> PyStr.strip piece = tag.
Proof.
  intros (l & r & -> & Hl & Hr & Htag). unfold PyStr.strip.
  rewrite (lstrip_app_space _ _ Hl).
  unfold trimmed in Htag. apply andb_true_iff in Htag as [Hfirst Hlast].
  destruct tag as [|c t].
  - rewrite append_empty, (lstrip_all_space _ Hr). reflexivity.
  - rewrite append_String. cbn [PyStr.lstrip].
    cbn in Hfirst. apply negb_true_iff in Hfirst. rewrite Hfirst.
    rewrite <- append_String, (rstrip_app_space _ _ Hr).
    apply rstrip_fixed, Hlast.
Qed.

Lemma requested_iff (field tag : string) :
  requested field tag <-> In tag (tags_of field).
Proof.
  unfold requested, tags_of. rewrite in_map_iff. split.
  - intros (ps & piece & Hps & Hin & Hstrip).
    exists piece. rewrite <- (pieces_unique _ _ Hps).
    split; [apply stripped_unique, Hstrip | exact Hin].
  - intros (piece & <- & Hin).
    exists (PyStr.split "," field), piece.
    split; [apply pieces_split|]. split; [exact Hin | apply strip_stripped].
Qed.

(** ** Case-insensitive occurrence is what [icontains] tests *)

Lemma N_of_lower_ascii (a : ascii) :
  N_of_ascii (PyStr.lower_ascii a)
  = (if (65 <=? N_of_ascii a) && (N_of_ascii a <=? 90)
     then N_of_ascii a + 32 else N_of_ascii a)%N.
Proof.
  unfold PyStr.lower_ascii.
  destruct ((65 <=? N_of_ascii a) && (N_of_ascii a <=? 90))%N eqn:E;
    [|reflexivity].
  apply N_ascii_embedding.
  apply andb_true_iff in E as [_ E]. apply N.leb_le in E. lia.
Qed.

Lemma N_of_ascii_inj (a b : ascii) : N_of_ascii a = N_of_ascii b -> a = b.
Proof.
  intros H. rewrite <- (ascii_N_embedding a), <- (ascii_N_embedding b), H.
  reflexivity.
Qed.

Lemma lower_ascii_same (a b : ascii) :
  PyStr.lower_ascii a = PyStr.lower_ascii b <-> same_letter a b.
Proof.
  split.
  - intros H. apply (f_equal N_of_ascii) in H. rewrite !N_of_lower_ascii in H.
    destruct ((65 <=? N_of_ascii a) && (N_of_ascii a <=? 90))%N eqn:Ea;
      destruct ((65 <=? N_of_ascii b) && (N_of_ascii b <=? 90))%N eqn:Eb.
    + left. apply N_of_ascii_inj. lia.
    + right. apply andb_true_iff in Ea as [Ea1 Ea2].
      apply N.leb_le in Ea1, Ea2.
      exists (N_of_ascii a - 65)%N. split; [lia|]. left. lia.
    + right. apply andb_true_iff in Eb as [Eb1 Eb2].
      apply N.leb_le in Eb1, Eb2.
      exists (N_of_ascii b - 65)%N. split; [lia|]. right. lia.
    + left. apply N_of_ascii_inj. exact H.
  - intros [-> | (k & Hk & [[Ha Hb] | [Ha Hb]])]; [reflexivity| |];
      apply N_of_ascii_inj; rewrite !N_of_lower_ascii, Ha, Hb.
    + replace ((65 <=? 65 + k) && (65 + k <=? 90))%N with true
        by (symmetry; apply andb_true_iff; split; apply N.leb_le; lia).
      replace ((65 <=? 97 + k) && (97 + k <=? 90))%N with false
        by (symmetry; apply andb_false_iff; right; apply N.leb_gt; lia).
      lia.
    + replace ((65 <=? 65 + k) && (65 + k <=? 90))%N with true
        by (symmetry; apply andb_true_iff; split; apply N.leb_le; lia).
      replace ((65 <=? 97 + k) && (97 + k <=? 90))%N with false
        by (symmetry; apply andb_false_iff; right; apply N.leb_gt; lia).
      lia.
Qed.

Lemma lower_same_text (s t : string) :
  PyStr.lower s = PyStr.lower t <-> same_text s t.
Proof.
  revert t. induction s as [|a s IH]; intros [|b t]; cbn [PyStr.lower same_text];
    try (split; [discriminate | tauto]); [tauto|].
  rewrite <- IH, <- lower_ascii_same. split.
  - intros [= H1 H2]. auto.
  - intros [H1 H2]. congruence.
Qed.




(** X4: the tags the view computes from a skills field are exactly its
    requested tags, the comma-separated pieces with their surrounding
    whitespace removed; there is one more of them than the field has commas,
    and none contains a comma or begins or ends with whitespace. *)
Theorem tags_are_clean (field : string) :
  (forall tag, In tag (tags_of field) <-> requested field tag)
  /\ length (tags_of field)
     = S (count_occ ascii_dec (list_ascii_of_string field) ","%char)
  /\ Forall (fun tag => trimmed tag = true /\ comma_free tag) (tags_of field).
Proof.
  split; [intros tag; symmetry; apply requested_iff|].
  unfold tags_of. destruct (split_pieces "," field) as [Hp Hn].
  split; [rewrite length_map; exact Hn|].
  apply List.Forall_map. eapply List.Forall_impl; [|exact Hp].
  intros t Ht. split; [apply strip_trimmed|].
  intros H. apply Ht. unfold PyStr.strip in H.
  apply lstrip_chars, rstrip_chars, H.
Qed.

Example tags_with_no_break_space :
  tags_of ("go," ++ String "160" "rust" ++ String "133" "") = ["go"; "rust"].
Proof. reflexivity. Qed.

Example skills_with_no_break_space :
  filter_skills (Some ("go," ++ String "160" "rust")) Sample.directory
  = [Sample.A].
Proof. reflexivity. Qed.



(** requesting "go" matches a record whose skills contain "mongodb" *)
Example go_occurs_in_mongodb :
  requested " go " "go" /\ occurs_in "go" "python, MonGoDB".
Proof.
  split.
  - exists [" go "], " go ". split; [|split; [left; reflexivity|]].
    + split; [discriminate|]. split; [reflexivity|].
      constructor; [|constructor]. cbv. intuition discriminate.
    + exists " ", " ". repeat split.
  - exists "python, Mon", "Go", "DB". split; [reflexivity|].
    apply lower_same_text. reflexivity.
Qed.

(** ** The queryset *)

Section QuerysetProperties.

Variable great_circle : Coord -> Coord -> Q.
Variable SearchForm : QueryDict -> option SearchData.

Lemma search_queryset_no_location (uid : option Z) (cd : SearchData)
    (objects : list Profile) :
  cd_location cd = None ->
  search_queryset great_circle uid cd objects
  = List.filter
      (fun p => negb (is_requester uid p) && skills_ok cd p
                && role_ok cd p && name_ok cd p) objects.
Proof.
  intros Hloc. unfold search_queryset. rewrite Hloc. cbn [filter_location].
  rewrite filter_name_ok, filter_role_ok, filter_skills_ok, exclude_user_filter.
  rewrite !filter_filter. apply List.filter_ext.
  intros p. rewrite !andb_assoc. reflexivity.
Qed.

Lemma is_requester_false (uid : option Z) (p : Profile) :
  is_requester uid p = false <-> Some (id (user p)) <> uid.
Proof.
  unfold is_requester. destruct uid as [u|]; [|split; [discriminate | reflexivity]].
  rewrite Z.eqb_neq. split; congruence.
Qed.





(** X6: without a location in the query, the result is a subsequence of the
    directory: records keep their snapshot order and none is repeated or
    invented. *)
Theorem search_keeps_snapshot_order
    (uid : option Z) (cd : SearchData) (objects : list Profile) :
  cd_location cd = None ->
  sublist (search_queryset great_circle uid cd objects) objects.
Proof.
  intros Hloc. rewrite (search_queryset_no_location _ _ _ Hloc).
  apply filter_sublist.
Qed.

(** X7: the view searches exactly when the request has query parameters
    and the form validates; otherwise [searched] is not set and no result
    list is built. *)
Theorem search_happens_iff_valid_query
    (objects : list Profile) (request : SearchRequest) :
  (searched (search great_circle SearchForm objects request) = true <->
   GET request <> [] /\ SearchForm (GET request) <> None)
  /\ (search_results (search great_circle SearchForm objects request) <> None <->
      searched (search great_circle SearchForm objects request) = true).
Proof.
  unfold search. destruct (GET request) as [|kv rest].
  - simpl. intuition congruence.
  - destruct (SearchForm (kv :: rest)) as [cd|]; simpl; intuition congruence.
Qed.

End QuerysetProperties.


Lemma search_keeps_snapshot_order_witness :
  sublist
    (search_queryset Sample.grid_distance (Some 1)
       {| cd_location := None; cd_skills := Some "o"; cd_name := None;
          cd_position := None; cd_location_range := None |}
       Sample.directory)
    Sample.directory.
Proof.
  apply (search_keeps_snapshot_order Sample.grid_distance (Some 1)
           {| cd_location := None; cd_skills := Some "o"; cd_name := None;
              cd_position := None; cd_location_range := None |}
           Sample.directory eq_refl).
Defined.

(** ** The contact view, case by case *)

Section ContactCases.

Variable cfg : QuotaConfig.
Variable UserContactForm : QueryDict -> option (string * string).
Variable render_to_string : string -> ContactData -> string.

(** the view once the two quota checks are merged *)
Lemma contact_cases (request : ContactRequest) (name : string) (w : World) :
  contact cfg UserContactForm render_to_string request name w =
  match request_user request with
  | None => (LoginRequired, w)
  | Some me =>
      match List.find (fun u => String.eqb (username u) name) (accounts w) with
      | None => (Http404, w)
      | Some to =>
          if String.eqb (email me) "" then
            (Redirect "edit_profile" [],
             {| accounts := accounts w; quota := quota w; signals := signals w;
                outbox := outbox w;
                flash := (flash w ++ [(Warning,
                  "You must set a valid email address prior to emailing other users.")])%list |})
          else
            let ts := prune cfg (now request) (sendTimestamps (quota w) (id me)) in
            let ok := (length ts <? maxSendsPerWindow cfg)%nat in
            let checked :=
              {| accounts := accounts w; quota := <[id me := ts]> (quota w);
                 signals := signals w; outbox := outbox w;
                 flash := if ok then flash w
                          else (flash w ++ [(Warning,
                    "You have currently exceeded the message quota.  Please wait a few minutes before sending this message.")])%list |} in
            if String.eqb (method request) "GET" then
              (Render "people/contact.html" false to, checked)
            else
              match UserContactForm (POST request) with
              | None => (Render "people/contact.html" true to, checked)
              | Some (subj, msg) =>
                  if ok then
                    let data := {| from_user := me; to_user := to;
                                   subject := subj; body := msg |} in
                    let subject' :=
                      render_to_string "people/contact_email_subject.txt" data in
                    let body' :=
                      render_to_string "people/contact_email_body.txt" data in
                    let fired :=
                      (signals w ++
                       [{| ms_sender := me; ms_subject := subject';
                           ms_body := body'; ms_recipient := to |}])%list in
                    let mail :=
                      {| mail_to := to; mail_subject := PyStr.strip subject';
                         mail_body := body'; mail_from := email me |} in
                    let delivered :=
                      (flash w ++ [(Success,
                         ("Your email has been delivered to "
                          ++ str_or (first_name to) (username to))%string)])%list in
                    let recorded :=
                      <[id me := (ts ++ [now request])%list]> (quota w) in
                    if String.eqb (email to) "" then
                      (Redirect "user_profile" [name],
                       {| accounts := accounts w; quota := recorded;
                          signals := fired; outbox := outbox w;
                          flash := delivered |})
                    else if bad_header mail then
                      (ServerError "BadHeaderError",
                       {| accounts := accounts w;
                          quota := <[id me := ts]> (quota w);
                          signals := fired; outbox := outbox w;
                          flash := flash w |})
                    else
                      (Redirect "user_profile" [name],
                       {| accounts := accounts w; quota := recorded;
                          signals := fired;
                          outbox := (outbox w ++ [mail])%list;
                          flash := delivered |})
                  else (Render "people/contact.html" true to, checked)
              end
      end
  end.
Proof.
  unfold contact. destruct (request_user request) as [me|]; [|reflexivity].
  unfold bind at 1. unfold get_object_or_404.
  destruct (List.find _ (accounts w)) as [to|]; [|reflexivity].
  destruct (String.eqb (email me) ""); [reflexivity|].
  unfold bind at 1. unfold can_send_email at 1, canSend.
  set (ts := prune cfg (now request) (sendTimestamps (quota w) (id me))).
  set (ok := (length ts <? maxSendsPerWindow cfg)%nat).
  assert (Hagain : prune cfg (now request) ts = ts)
    by (subst ts; apply prune_later; lia).
  destruct ok eqn:Hok; subst ok.
  - unfold bind at 1, ret at 1.
    destruct (String.eqb (method request) "GET"); [reflexivity|].
    destruct (UserContactForm (POST request)) as [[subj msg]|]; [|reflexivity].
    unfold bind at 1, can_send_email, canSend. cbn [quota id].
    rewrite sendTimestamps_insert, Hagain, Hok.
    unfold bind at 1, message_sent_send. unfold bind at 1, email_user.
    cbn [mail_to accounts quota signals outbox flash]. cbv zeta.
    destruct (String.eqb (email to) "").
    + unfold bind, ret, messages_add, record_email_sent, recordSend.
      cbn [accounts quota signals outbox flash].
      rewrite sendTimestamps_insert, Hagain, !insert_insert_eq. reflexivity.
    + destruct (bad_header _).
      * unfold ret. rewrite insert_insert_eq. reflexivity.
      * unfold bind, ret, messages_add, record_email_sent, recordSend.
        cbn [accounts quota signals outbox flash].
        rewrite sendTimestamps_insert, Hagain, !insert_insert_eq. reflexivity.
  - unfold bind at 1, messages_add at 1. cbn [accounts quota signals outbox flash].
    destruct (String.eqb (method request) "GET"); [reflexivity|].
    destruct (UserContactForm (POST request)) as [[subj msg]|]; [|reflexivity].
    unfold bind at 1, can_send_email, canSend. cbn [quota id].
    rewrite sendTimestamps_insert, Hagain, Hok.
    unfold ret. rewrite insert_insert_eq. reflexivity.
Qed.

(** X8: a logged-in sender with an e-mail address, who posts a valid form
    to an existing recipient that has an address while under the quota, gets
    exactly one e-mail delivered, provided no header spans lines (the
    stripped rendered subject and the two addresses hold no line break): the
    signal fires once with the rendered subject and body, the e-mail goes out
    from the sender's address with the stripped subject, the instant is
    recorded for the sender, and the response is the redirect to the
    recipient's profile. *)
Theorem contact_delivers_once
    (request : ContactRequest) (name : string) (w : World)
    (me to : User) (subj msg : string) :
  request_user request = Some me ->
  List.find (fun u => String.eqb (username u) name) (accounts w) = Some to ->
  email me <> "" ->
  method request <> "GET" ->
  UserContactForm (POST request) = Some (subj, msg) ->
  (length (prune cfg (now request) (sendTimestamps (quota w) (id me)))
   < maxSendsPerWindow cfg)%nat ->
  email to <> "" ->
  has_newline
    (PyStr.strip
       (render_to_string "people/contact_email_subject.txt"
          {| from_user := me; to_user := to; subject := subj; body := msg |}))
  = false ->
  has_newline (email me) = false ->
  has_newline (email to) = false ->
  let (response, w') :=
    contact cfg UserContactForm render_to_string request name w in
  let data := {| from_user := me; to_user := to; subject := subj; body := msg |} in
  response = Redirect "user_profile" [name]
  /\ signals w' =
     (signals w ++
      [{| ms_sender := me;
          ms_subject := render_to_string "people/contact_email_subject.txt" data;
          ms_body := render_to_string "people/contact_email_body.txt" data;
          ms_recipient := to |}])%list
  /\ outbox w' =
     (outbox w ++
      [{| mail_to := to;
          mail_subject :=
            PyStr.strip (render_to_string "people/contact_email_subject.txt" data);
          mail_body := render_to_string "people/contact_email_body.txt" data;
          mail_from := email me |}])%list
  /\ sendTimestamps (quota w') (id me) =
     (prune cfg (now request) (sendTimestamps (quota w) (id me))
      ++ [now request])%list.
Proof.
  intros Hme Hto Hmail Hmethod Hform Hroom Haddr Hsubject Hfrom Hrcpt.
  rewrite contact_cases, Hme, Hto, Hform.
  apply String.eqb_neq in Hmail, Hmethod, Haddr. rewrite Hmail, Hmethod.
  apply Nat.ltb_lt in Hroom. cbv zeta. rewrite Hroom, Haddr.
  unfold bad_header. cbn [mail_subject mail_from mail_to].
  rewrite Hsubject, Hfrom, Hrcpt. cbn [orb signals outbox quota].
  rewrite sendTimestamps_insert. repeat split.
Qed.

(** X21: when the stripped rendered subject spans lines, the signal has
    already fired when [email_user] raises: the request ends in an error with
    the signal logged, and with no e-mail delivered, no message flashed and
    no instant recorded for the sender. *)
Theorem contact_bad_subject_raises
    (request : ContactRequest) (name : string) (w : World)
    (me to : User) (subj msg : string) :
  request_user request = Some me ->
  List.find (fun u => String.eqb (username u) name) (accounts w) = Some to ->
  email me <> "" ->
  method request <> "GET" ->
  UserContactForm (POST request) = Some (subj, msg) ->
  (length (prune cfg (now request) (sendTimestamps (quota w) (id me)))
   < maxSendsPerWindow cfg)%nat ->
  email to <> "" ->
  has_newline
    (PyStr.strip
       (render_to_string "people/contact_email_subject.txt"
          {| from_user := me; to_user := to; subject := subj; body := msg |}))
  = true ->
  let (response, w') :=
    contact cfg UserContactForm render_to_string request name w in
  let data := {| from_user := me; to_user := to; subject := subj; body := msg |} in
  response = ServerError "BadHeaderError"
  /\ signals w' =
     (signals w ++
      [{| ms_sender := me;
          ms_subject := render_to_string "people/contact_email_subject.txt" data;
          ms_body := render_to_string "people/contact_email_body.txt" data;
          ms_recipient := to |}])%list
  /\ outbox w' = outbox w
  /\ flash w' = flash w
  /\ sendTimestamps (quota w') (id me)
     = prune cfg (now request) (sendTimestamps (quota w) (id me)).
Proof.
  intros Hme Hto Hmail Hmethod Hform Hroom Haddr Hsubject.
  rewrite contact_cases, Hme, Hto, Hform.
  apply String.eqb_neq in Hmail, Hmethod, Haddr. rewrite Hmail, Hmethod.
  apply Nat.ltb_lt in Hroom. cbv zeta. rewrite Hroom, Haddr.
  unfold bad_header. cbn [mail_subject mail_from mail_to].
  rewrite Hsubject. cbn [orb signals outbox quota flash].
  rewrite sendTimestamps_insert. repeat split.
Qed.

(** X9: whatever the request, either the view sends nothing (mailbox and
    signal log unchanged, no instant added to any identity's timestamps), or
    the sender is logged in with a non-empty address, the recipient exists,
    the method is not GET, the form is valid and the sender is under the
    quota. *)
Theorem contact_sends_only_when_allowed
    (request : ContactRequest) (name : string) (w : World) :
  let (response, w') :=
    contact cfg UserContactForm render_to_string request name w in
  (outbox w' = outbox w /\ signals w' = signals w /\
   forall i, sublist (sendTimestamps (quota w') i) (sendTimestamps (quota w) i))
  \/ exists me to subj msg,
       request_user request = Some me
       /\ List.find (fun u => String.eqb (username u) name) (accounts w) = Some to
       /\ email me <> ""
       /\ method request <> "GET"
       /\ UserContactForm (POST request) = Some (subj, msg)
       /\ (length (prune cfg (now request) (sendTimestamps (quota w) (id me)))
           < maxSendsPerWindow cfg)%nat.
Proof.
  rewrite contact_cases.
  destruct (request_user request) as [me|] eqn:Hme;
    [|left; repeat split; reflexivity].
  destruct (List.find _ (accounts w)) as [to|] eqn:Hto;
    [|left; repeat split; reflexivity].
  destruct (String.eqb (email me) "") eqn:Hmail;
    [left; repeat split; reflexivity|].
  cbv zeta.
  assert (Hchecked : forall i,
    sublist (sendTimestamps
               (<[id me := prune cfg (now request)
                             (sendTimestamps (quota w) (id me))]> (quota w)) i)
            (sendTimestamps (quota w) i)).
  { intros i. destruct (Z.eq_dec (id me) i) as [<-|Hne].
    - rewrite sendTimestamps_insert. apply filter_sublist.
    - rewrite sendTimestamps_insert_ne by exact Hne. reflexivity. }
  destruct (String.eqb (method request) "GET") eqn:Hmethod;
    [left; repeat split; exact Hchecked|].
  destruct (UserContactForm (POST request)) as [[subj msg]|] eqn:Hform;
    [|left; repeat split; exact Hchecked].
  destruct (_ <? _)%nat eqn:Hroom; [|left; repeat split; exact Hchecked].
  apply String.eqb_neq in Hmail, Hmethod. apply Nat.ltb_lt in Hroom.
  destruct (String.eqb (email to) ""); [|destruct (bad_header _)];
    right; exists me, to, subj, msg; repeat split; assumption.
Qed.

(** X10: a sender over the quota is told so and nothing is sent, whatever
    the method and the form: the warning is flashed, the contact page is
    rendered, and the sender's timestamps are only pruned. *)
Theorem contact_over_quota_warns
    (request : ContactRequest) (name : string) (w : World) (me to : User) :
  request_user request = Some me ->
  List.find (fun u => String.eqb (username u) name) (accounts w) = Some to ->
  email me <> "" ->
  (maxSendsPerWindow cfg
   <= length (prune cfg (now request) (sendTimestamps (quota w) (id me))))%nat ->
  let (response, w') :=
    contact cfg UserContactForm render_to_string request name w in
  (exists bound, response = Render "people/contact.html" bound to)
  /\ outbox w' = outbox w
  /\ signals w' = signals w
  /\ sendTimestamps (quota w') (id me)
     = prune cfg (now request) (sendTimestamps (quota w) (id me))
  /\ flash w' = (flash w ++ [(Warning,
       "You have currently exceeded the message quota.  Please wait a few minutes before sending this message.")])%list.
Proof.
  intros Hme Hto Hmail Hfull.
  rewrite contact_cases, Hme, Hto.
  apply String.eqb_neq in Hmail. rewrite Hmail.
  apply Nat.ltb_ge in Hfull. cbv zeta. rewrite Hfull.
  destruct (String.eqb (method request) "GET");
    [|destruct (UserContactForm (POST request)) as [[subj msg]|]];
    cbn [signals outbox quota flash]; rewrite sendTimestamps_insert;
    (split; [eexists; reflexivity | repeat split]).
Qed.

(** X11: the view never lets the table hold more than [maxSendsPerWindow]
    instants for an identity: if that is so before a request, it is so
    after. *)
Theorem contact_keeps_table_bounded
    (request : ContactRequest) (name : string) (w : World) :
  (forall i, (length (sendTimestamps (quota w) i) <= maxSendsPerWindow cfg)%nat) ->
  forall i,
    (length (sendTimestamps
               (quota (snd (contact cfg UserContactForm render_to_string
                              request name w))) i)
     <= maxSendsPerWindow cfg)%nat.
Proof.
  intros Hinv i. rewrite contact_cases.
  destruct (request_user request) as [me|]; [|apply Hinv].
  destruct (List.find _ (accounts w)) as [to|]; [|apply Hinv].
  destruct (String.eqb (email me) ""); [apply Hinv|].
  cbv zeta.
  set (ts := prune cfg (now request) (sendTimestamps (quota w) (id me))).
  assert (Hts : (length ts <= maxSendsPerWindow cfg)%nat).
  { etrans; [|apply (Hinv (id me))]. apply sublist_length, filter_sublist. }
  assert (Hchecked :
    (length (sendTimestamps (<[id me := ts]> (quota w)) i)
     <= maxSendsPerWindow cfg)%nat).
  { destruct (Z.eq_dec (id me) i) as [<-|Hne].
    - rewrite sendTimestamps_insert. exact Hts.
    - rewrite sendTimestamps_insert_ne by exact Hne. apply Hinv. }
  destruct (String.eqb (method request) "GET"); [exact Hchecked|].
  destruct (UserContactForm (POST request)) as [[subj msg]|]; [|exact Hchecked].
  destruct (_ <? _)%nat eqn:Hroom; [|exact Hchecked].
  apply Nat.ltb_lt in Hroom.
  assert (Hrecorded :
    (length (sendTimestamps
               (<[id me := (ts ++ [now request])%list]> (quota w)) i)
     <= maxSendsPerWindow cfg)%nat).
  { destruct (Z.eq_dec (id me) i) as [<-|Hne].
    - rewrite sendTimestamps_insert, length_app. simpl. lia.
    - rewrite sendTimestamps_insert_ne by exact Hne. apply Hinv. }
  destruct (String.eqb (email to) ""); [exact Hrecorded|].
  destruct (bad_header _); [exact Hchecked | exact Hrecorded].
Qed.

(** X12: the view never touches the accounts or the quota entry of anyone
    but the sender, and it only ever appends to the mailbox, the signal log
    and the flash messages, at most one e-mail and one signal per request. *)
Theorem contact_frame
    (request : ContactRequest) (name : string) (w : World) :
  let (response, w') :=
    contact cfg UserContactForm render_to_string request name w in
  accounts w' = accounts w
  /\ (forall j, option_map id (request_user request) <> Some j ->
        quota w' !! j = quota w !! j)
  /\ (exists ms, outbox w' = (outbox w ++ ms)%list /\ (length ms <= 1)%nat)
  /\ (exists ss, signals w' = (signals w ++ ss)%list /\ (length ss <= 1)%nat)
  /\ (exists fs, flash w' = (flash w ++ fs)%list /\ (length fs <= 1)%nat).
Proof.
  assert (Hnil : forall A (l : list A),
            exists x, l = (l ++ x)%list /\ (length x <= 1)%nat)
    by (intros A l; exists []; rewrite app_nil_r; split; [reflexivity | simpl; lia]).
  assert (Hone : forall A (l : list A) a,
            exists x, (l ++ [a])%list = (l ++ x)%list /\ (length x <= 1)%nat)
    by (intros A l a; exists [a]; split; [reflexivity | simpl; lia]).
  rewrite contact_cases.
  destruct (request_user request) as [me|]; [|repeat split; auto].
  destruct (List.find _ (accounts w)) as [to|]; [|repeat split; auto].
  destruct (String.eqb (email me) ""); [repeat split; cbn; auto|].
  cbv zeta.
  assert (Hother : forall ts j, option_map id (Some me) <> Some j ->
            <[id me := ts]> (quota w) !! j = quota w !! j).
  { intros ts j Hj. apply lookup_insert_ne. simpl in Hj. congruence. }
  destruct (String.eqb (method request) "GET");
    [|destruct (UserContactForm (POST request)) as [[subj msg]|]];
    destruct (_ <? _)%nat;
    try (destruct (String.eqb (email to) ""); [|destruct (bad_header _)]);
    cbn [accounts quota signals outbox flash];
    repeat split; auto.
Qed.

(** X13: the view keeps the mail log consistent: if every e-mail in the
    mailbox was announced, in order, by a signal of its own with the same
    recipient, sender address, body and (stripped) subject, comes from a
    non-empty address, goes to an account that has an address and has a
    one-line subject, then the same holds after any request.  (A signal may
    have no e-mail: the signal fires before the e-mail is sent.) *)
Theorem contact_keeps_mail_log
    (request : ContactRequest) (name : string) (w : World) :
  mail_log_ok w ->
  mail_log_ok (snd (contact cfg UserContactForm render_to_string request name w)).
Proof.
  intros [(announced & Hsub & Hann) Hout]. rewrite contact_cases.
  assert (Hsame : mail_log_ok w) by (split; [exists announced|]; auto).
  destruct (request_user request) as [me|]; [|exact Hsame].
  destruct (List.find _ (accounts w)) as [to|] eqn:Hto; [|exact Hsame].
  destruct (String.eqb (email me) "") eqn:Hmail; [exact Hsame|].
  cbv zeta.
  assert (Hchecked : forall q fl,
    mail_log_ok {| accounts := accounts w; quota := q; signals := signals w;
                   outbox := outbox w; flash := fl |})
    by (intros q fl; exact Hsame).
  destruct (String.eqb (method request) "GET"); [apply Hchecked|].
  destruct (UserContactForm (POST request)) as [[subj msg]|]; [|apply Hchecked].
  destruct (_ <? _)%nat; [|apply Hchecked].
  assert (Hfired : forall q fl s,
    mail_log_ok {| accounts := accounts w; quota := q;
                   signals := (signals w ++ [s])%list;
                   outbox := outbox w; flash := fl |}).
  { intros q fl s. split; [|exact Hout].
    exists announced. split; [|exact Hann].
    cbn [signals]. apply sublist_inserts_r, Hsub. }
  destruct (String.eqb (email to) "") eqn:Haddr; [apply Hfired|].
  destruct (bad_header _) eqn:Hbad; [apply Hfired|].
  unfold bad_header in Hbad. cbn [mail_subject mail_from mail_to] in Hbad.
  apply orb_false_iff in Hbad as [Hbad _]. apply orb_false_iff in Hbad as [Hbad _].
  split; cbn [snd signals outbox accounts].
  - eexists. split; [apply sublist_app; [exact Hsub | reflexivity]|].
    apply Forall2_app; [exact Hann|].
    constructor; [|constructor]. repeat split.
  - apply Forall_app. split; [exact Hout|].
    constructor; [|constructor]. cbn [mail_from mail_to mail_subject].
    apply String.eqb_neq in Hmail, Haddr.
    apply List.find_some in Hto as [Hto _]. auto.
Qed.

End ContactCases.

Lemma contact_delivers_once_witness :
  let (response, w') :=
    contact Sample.three_per_minute Sample.contact_form Sample.templates
            (Sample.post Sample.bob 5) "alice" Sample.world in
  response = Redirect "user_profile" ["alice"]
  /\ signals w' =
     [{| ms_sender := Sample.bob; ms_subject := " hello "; ms_body := "lunch?";
         ms_recipient := Sample.alice |}]
  /\ outbox w' =
     [{| mail_to := Sample.alice; mail_subject := "hello"; mail_body := "lunch?";
         mail_from := "bob@example.org" |}]
  /\ sendTimestamps (quota w') 2 = [5].
Proof.
  apply (contact_delivers_once Sample.three_per_minute Sample.contact_form
           Sample.templates (Sample.post Sample.bob 5) "alice" Sample.world
           Sample.bob Sample.alice "hello" "lunch?");
    try reflexivity; try discriminate.
  vm_compute. lia.
Defined.

Lemma contact_over_quota_warns_witness :
  let (response, w') :=
    contact Sample.three_per_minute Sample.contact_form Sample.templates
            (Sample.post Sample.bob 5) "alice" Sample.busy_world in
  (exists bound, response = Render "people/contact.html" bound Sample.alice)
  /\ outbox w' = outbox Sample.busy_world
  /\ signals w' = signals Sample.busy_world
  /\ sendTimestamps (quota w') (id Sample.bob)
     = prune Sample.three_per_minute 5
         (sendTimestamps (quota Sample.busy_world) (id Sample.bob))
  /\ flash w' = (flash Sample.busy_world ++ [(Warning,
       "You have currently exceeded the message quota.  Please wait a few minutes before sending this message.")])%list.
Proof.
  apply (contact_over_quota_warns Sample.three_per_minute Sample.contact_form
           Sample.templates (Sample.post Sample.bob 5) "alice" Sample.busy_world
           Sample.bob Sample.alice);
    try reflexivity; discriminate.
Defined.

Lemma contact_keeps_table_bounded_witness :
  (length (sendTimestamps
             (quota (snd (contact Sample.three_per_minute Sample.contact_form
                            Sample.templates (Sample.post Sample.bob 5) "alice"
                            Sample.world))) 2)
   <= 3)%nat.
Proof.
  apply (contact_keeps_table_bounded Sample.three_per_minute Sample.contact_form
           Sample.templates (Sample.post Sample.bob 5) "alice" Sample.world).
  intros i. unfold sendTimestamps. simpl. rewrite lookup_empty. simpl. lia.
Defined.

Lemma contact_keeps_mail_log_witness :
  mail_log_ok
    (snd (contact Sample.three_per_minute Sample.contact_form Sample.templates
            (Sample.post Sample.bob 5) "alice" Sample.world)).
Proof.
  apply (contact_keeps_mail_log Sample.three_per_minute Sample.contact_form
           Sample.templates (Sample.post Sample.bob 5) "alice" Sample.world).
  split; [exists []; split; constructor | constructor].
Defined.

Lemma contact_bad_subject_raises_witness :
  let (response, w') :=
    contact Sample.three_per_minute Sample.contact_form
            Sample.two_line_templates (Sample.post Sample.bob 5) "alice"
            Sample.world in
  let data := {| from_user := Sample.bob; to_user := Sample.alice;
                 subject := "hello"; body := "lunch?" |} in
  response = ServerError "BadHeaderError"
  /\ signals w' =
     (signals Sample.world ++
      [{| ms_sender := Sample.bob;
          ms_subject :=
            Sample.two_line_templates "people/contact_email_subject.txt" data;
          ms_body :=
            Sample.two_line_templates "people/contact_email_body.txt" data;
          ms_recipient := Sample.alice |}])%list
  /\ outbox w' = outbox Sample.world
  /\ flash w' = flash Sample.world
  /\ sendTimestamps (quota w') (id Sample.bob)
     = prune Sample.three_per_minute (now (Sample.post Sample.bob 5))
         (sendTimestamps (quota Sample.world) (id Sample.bob)).
Proof.
  apply (contact_bad_subject_raises Sample.three_per_minute
           Sample.contact_form Sample.two_line_templates
           (Sample.post Sample.bob 5) "alice" Sample.world
           Sample.bob Sample.alice "hello" "lunch?");
    try reflexivity; try discriminate.
  vm_compute. lia.
Defined.

(** ** The profile view *)

Lemma NoDup_map_eq {A B} (f : A -> B) (l : list A) (a b : A) :
  NoDup (map f l) -> In a l -> In b l -> f a = f b -> a = b.
Proof.
  induction l as [|x l IH]; simpl; [tauto|].
  intros Hnd Ha Hb Hf. apply NoDup_cons in Hnd as [Hx Hnd].
  rewrite list_elem_of_In in Hx.
  destruct Ha as [<-|Ha], Hb as [<-|Hb]; auto.
  - exfalso. apply Hx. rewrite Hf. apply in_map, Hb.
  - exfalso. apply Hx. rewrite <- Hf. apply in_map, Ha.
Qed.

(** X14: the profile view answers 404 exactly when no account has the
    requested username; otherwise it shows an account with that username;
    it never changes the world. *)
Theorem profile_finds_by_username (name : string) (w : World) :
  snd (profile name w) = w
  /\ (fst (profile name w) = ProfileNotFound <->
      forall u, In u (accounts w) -> username u <> name)
  /\ (forall u, fst (profile name w) = ProfilePage u ->
        In u (accounts w) /\ username u = name).
Proof.
  unfold profile, bind, get_object_or_404, ret.
  destruct (List.find _ (accounts w)) as [u|] eqn:E; simpl.
  - apply List.find_some in E as [Hin Hname]. apply String.eqb_eq in Hname.
    split; [reflexivity|]. split.
    + split; [discriminate|]. intros H. exfalso. exact (H u Hin Hname).
    + intros u' [= <-]. split; assumption.
  - split; [reflexivity|]. split; [|discriminate].
    split; [|reflexivity]. intros _ u Hin Hname.
    apply (List.find_none _ _ E) in Hin. apply String.eqb_neq in Hin. contradiction.
Qed.

(** X15: when usernames are unique, asking for the profile of any account
    by its username shows that very account. *)
Theorem profile_of_each_account (w : World) (u : User) :
  NoDup (map username (accounts w)) ->
  In u (accounts w) ->
  profile (username u) w = (ProfilePage u, w).
Proof.
  intros Hnd Hin. unfold profile, bind, get_object_or_404, ret.
  destruct (List.find _ (accounts w)) as [u'|] eqn:E.
  - apply List.find_some in E as [Hin' Hname]. apply String.eqb_eq in Hname.
    rewrite (NoDup_map_eq username (accounts w) u' u Hnd Hin' Hin Hname).
    reflexivity.
  - apply (List.find_none _ _ E) in Hin. rewrite String.eqb_refl in Hin.
    discriminate.
Qed.

Lemma profile_of_each_account_witness :
  profile "bob" Sample.world = (ProfilePage Sample.bob, Sample.world).
Proof.
  apply (profile_of_each_account Sample.world Sample.bob).
  - apply (bool_decide_unpack _). vm_compute. exact I.
  - simpl. tauto.
Defined.

(** ** Saving rows *)

Lemma row_of_save (p : Profile) (rows : list Profile) :
  row_of (id (user p)) (save p rows) = Some p.
Proof.
  unfold row_of, save. destruct (existsb (same_user p) rows) eqn:E.
  - induction rows as [|q rows IH]; [discriminate|].
    cbn [existsb map List.find] in *. unfold same_user in *.
    destruct (id (user p) =? id (user q)) eqn:Eq.
    + rewrite Z.eqb_refl. reflexivity.
    + rewrite Z.eqb_sym, Eq. apply IH. exact E.
  - induction rows as [|q rows IH]; cbn [existsb app List.find] in *.
    + rewrite Z.eqb_refl. reflexivity.
    + apply orb_false_iff in E as [Eq E]. unfold same_user in Eq.
      rewrite Z.eqb_sym, Eq. apply IH, E.
Qed.

Lemma row_of_save_other (p : Profile) (rows : list Profile) (j : Z) :
  j <> id (user p) -> row_of j (save p rows) = row_of j rows.
Proof.
  intros Hj. unfold row_of, save.
  assert (Hp : (id (user p) =? j) = false) by (apply Z.eqb_neq; congruence).
  destruct (existsb (same_user p) rows).
  - induction rows as [|q rows IH]; [reflexivity|].
    cbn [map List.find]. unfold same_user.
    destruct (id (user p) =? id (user q)) eqn:Eq.
    + apply Z.eqb_eq in Eq. rewrite <- Eq, Hp. exact IH.
    + destruct (id (user q) =? j); [reflexivity | exact IH].
  - induction rows as [|q rows IH]; cbn [app List.find].
    + rewrite Hp. reflexivity.
    + destruct (id (user q) =? j); [reflexivity | exact IH].
Qed.

Lemma save_ids (p : Profile) (rows : list Profile) :
  NoDup (map (fun q => id (user q)) rows) ->
  NoDup (map (fun q => id (user q)) (save p rows)).
Proof.
  intros Hnd. unfold save. destruct (existsb (same_user p) rows) eqn:E.
  - replace (map (fun q => id (user q))
               (map (fun q => if same_user p q then p else q) rows))
      with (map (fun q => id (user q)) rows); [exact Hnd|].
    rewrite map_map. apply map_ext. intros q. unfold same_user.
    destruct (id (user p) =? id (user q)) eqn:Eq; [|reflexivity].
    apply Z.eqb_eq in Eq. congruence.
  - rewrite map_app. apply NoDup_app. split; [exact Hnd|].
    split; [|apply NoDup_singleton].
    intros x Hx Hp. apply list_elem_of_In in Hx, Hp.
    destruct Hp as [<-|[]]. apply in_map_iff in Hx as (q & Hq & Hin).
    assert (existsb (same_user p) rows = true); [|congruence].
    apply existsb_exists. exists q. split; [exact Hin|].
    unfold same_user. apply Z.eqb_eq. congruence.
Qed.

Lemma save_In (p : Profile) (rows : list Profile) : In p (save p rows).
Proof.
  pose proof (row_of_save p rows) as H. apply List.find_some in H. apply H.
Qed.

Lemma existsb_eq {A} (f g : A -> bool) (l : list A) :
  (forall x, f x = g x) -> existsb f l = existsb g l.
Proof.
  intros H. induction l as [|x l IH]; simpl; [reflexivity|].
  rewrite H, IH. reflexivity.
Qed.

Lemma save_save (p1 p2 : Profile) (rows : list Profile) :
  id (user p1) = id (user p2) -> save p2 (save p1 rows) = save p2 rows.
Proof.
  intros Hid.
  assert (Hsame : forall q, same_user p1 q = same_user p2 q)
    by (intros q; unfold same_user; rewrite Hid; reflexivity).
  assert (H21 : same_user p2 p1 = true)
    by (unfold same_user; rewrite Hid; apply Z.eqb_refl).
  unfold save at 2 3. rewrite <- (existsb_eq _ _ rows Hsame).
  destruct (existsb (same_user p1) rows) eqn:E.
  - unfold save.
    assert (E' : existsb (same_user p2)
                   (map (fun q => if same_user p1 q then p1 else q) rows) = true).
    { apply existsb_exists in E as (q & Hin & Hq).
      apply existsb_exists. exists p1. split; [|exact H21].
      apply in_map_iff. exists q. rewrite Hq. auto. }
    rewrite E', map_map. apply map_ext. intros q.
    destruct (same_user p1 q) eqn:Eq; [|reflexivity].
    rewrite H21, <- Hsame, Eq. reflexivity.
  - unfold save. rewrite existsb_app. cbn [existsb]. rewrite H21, orb_true_r.
    rewrite map_app. cbn [map]. rewrite H21. f_equal.
    rewrite <- (map_id rows) at 2. apply map_ext_in. intros q Hin.
    destruct (same_user p2 q) eqn:Eq; [|reflexivity].
    assert (existsb (same_user p1) rows = true); [|congruence].
    apply existsb_exists. exists q. rewrite Hsame. auto.
Qed.

(** ** Editing a profile *)

Lemma form_of_assigned (d : ProfileData) (p : Profile) :
  _user_to_profileform (assign_cleaned_data d p) = d.
Proof. destruct d. reflexivity. Qed.

Section AccountProperties.

Variable great_circle : Coord -> Coord -> Q.
Variable ProfileForm : QueryDict -> QueryDict -> option ProfileData.
Variable PasswordForm : QueryDict -> option string.
Variable make_password : string -> string.

(** X16: what a valid edit saves is what the edit form shows next: after
    the POST, the stored row of the user carries the posted data under the
    same identity and username, and a later GET by that user renders a form
    populated with exactly the posted data. *)
Theorem edit_profile_round_trip
    (request : AccountRequest) (s : Site) (me : Profile) (d : ProfileData) :
  account_user request = Some me ->
  account_method request = "POST" ->
  ProfileForm (account_POST request) (account_FILES request) = Some d ->
  let (response, s') := edit_profile ProfileForm request s in
  response = EditPage (FormOf d)
  /\ exists me',
       row_of (id (user me)) (site_profiles s') = Some me'
       /\ _user_to_profileform me' = d
       /\ id (user me') = id (user me)
       /\ username (user me') = username (user me)
       /\ forall post files,
            edit_profile ProfileForm
              {| account_user := Some me'; account_method := "GET";
                 account_POST := post; account_FILES := files |} s'
            = (EditPage (FormOf d), s').
Proof.
  intros Hme Hpost Hform. unfold edit_profile at 1.
  rewrite Hme, Hpost, Hform. cbn [String.eqb]. simpl String.eqb.
  split; [reflexivity|].
  exists (assign_cleaned_data d me). cbn [site_profiles].
  split; [apply (row_of_save (assign_cleaned_data d me))|].
  split; [apply form_of_assigned|].
  split; [reflexivity|]. split; [reflexivity|].
  intros post files. unfold edit_profile. cbn [account_user account_method].
  simpl String.eqb. rewrite form_of_assigned. reflexivity.
Qed.

(** X17: editing a profile never touches the passwords or the stored row
    of any other user, keeps user identities unique among the rows, and
    changes the site at all only for a logged-in POST with a valid form. *)
Theorem edit_profile_frame (request : AccountRequest) (s : Site) :
  let (response, s') := edit_profile ProfileForm request s in
  site_passwords s' = site_passwords s
  /\ (forall j, option_map (fun p => id (user p)) (account_user request) <> Some j ->
        row_of j (site_profiles s') = row_of j (site_profiles s))
  /\ (NoDup (map (fun q => id (user q)) (site_profiles s)) ->
      NoDup (map (fun q => id (user q)) (site_profiles s')))
  /\ (s' = s \/
      account_method request = "POST"
      /\ account_user request <> None
      /\ ProfileForm (account_POST request) (account_FILES request) <> None).
Proof.
  unfold edit_profile.
  destruct (account_user request) as [me|]; [|repeat split; auto].
  destruct (String.eqb (account_method request) "POST") eqn:Hm;
    [|repeat split; auto].
  apply String.eqb_eq in Hm.
  destruct (ProfileForm _ _) as [d|]; [|repeat split; auto].
  cbn [site_profiles site_passwords]. split; [reflexivity|]. split.
  - intros j Hj. apply row_of_save_other. simpl in *.
    intros ->. apply Hj. reflexivity.
  - split; [apply save_ids|]. right. repeat split; [exact Hm | |]; discriminate.
Qed.

(** X18: the last edit wins: two valid edits by the same user, one after
    the other, leave the same rows as the second edit alone. *)
Theorem edit_profile_last_write_wins
    (r1 r2 : AccountRequest) (s : Site) (me1 me2 : Profile) (d1 d2 : ProfileData) :
  account_user r1 = Some me1 -> account_method r1 = "POST" ->
  ProfileForm (account_POST r1) (account_FILES r1) = Some d1 ->
  account_user r2 = Some me2 -> account_method r2 = "POST" ->
  ProfileForm (account_POST r2) (account_FILES r2) = Some d2 ->
  id (user me2) = id (user me1) ->
  site_profiles (snd (edit_profile ProfileForm r2
                        (snd (edit_profile ProfileForm r1 s))))
  = site_profiles (snd (edit_profile ProfileForm r2 s)).
Proof.
  intros H1 M1 F1 H2 M2 F2 Hid. unfold edit_profile.
  rewrite H1, M1, F1, H2, M2, F2. simpl String.eqb. cbn [snd site_profiles].
  apply save_save. simpl. congruence.
Qed.

(** X19: an edit shows up in the directory search: once a user has saved
    a profile with a non-empty position, a search for that position alone by
    anyone else lists the saved record. *)
Theorem edited_profile_is_found
    (request : AccountRequest) (s : Site) (me : Profile) (d : ProfileData)
    (uid : option Z) :
  account_user request = Some me ->
  account_method request = "POST" ->
  ProfileForm (account_POST request) (account_FILES request) = Some d ->
  pd_position d <> "" ->
  uid <> Some (id (user me)) ->
  In (assign_cleaned_data d me)
     (search_queryset great_circle uid
        {| cd_location := None; cd_skills := None; cd_name := None;
           cd_position := Some (pd_position d); cd_location_range := None |}
        (site_profiles (snd (edit_profile ProfileForm request s)))).
Proof.
  intros Hme Hpost Hform Hpos Huid. unfold edit_profile.
  rewrite Hme, Hpost, Hform. simpl String.eqb. cbn [snd site_profiles].
  rewrite search_queryset_no_location by reflexivity.
  apply List.filter_In. split; [apply save_In|].
  assert (Hreq : is_requester uid (assign_cleaned_data d me) = false)
    by (apply is_requester_false; simpl; congruence).
  rewrite Hreq. unfold skills_ok, role_ok, name_ok.
  cbn [cd_skills cd_position cd_name role assign_cleaned_data].
  destruct (pd_position d) as [|c r] eqn:E; [congruence|].
  cbn [PyStr.truthy negb andb]. rewrite String.eqb_refl. reflexivity.
Qed.

(** X20: a POST to [change_password] by a logged-in user always redirects
    to the profile editor and flashes one message; with a valid form the
    user's password becomes the new one, otherwise no password changes; in
    neither case is the password of another user or any profile column of
    any row touched. *)
Theorem change_password_effect
    (request : AccountRequest) (s : Site) (me : Profile) :
  account_user request = Some me ->
  account_method request = "POST" ->
  let (response, s') := change_password PasswordForm make_password request s in
  response = PasswordRedirect "edit_profile"
  /\ (forall j, j <> id (user me) -> site_passwords s' !! j = site_passwords s !! j)
  /\ (forall password1, PasswordForm (account_POST request) = Some password1 ->
        site_passwords s' !! id (user me) = Some (make_password password1)
        /\ site_flash s' = (site_flash s ++ [(Success, "Password changed.")])%list)
  /\ (PasswordForm (account_POST request) = None ->
        site_passwords s' = site_passwords s
        /\ site_profiles s' = site_profiles s
        /\ site_flash s' =
             (site_flash s ++ [(Success, "Passwords did not match.")])%list)
  /\ map (fun q => (id (user q), twitter_id q, url q, role q, location q,
                    skills q, about q)) (site_profiles s')
     = map (fun q => (id (user q), twitter_id q, url q, role q, location q,
                      skills q, about q)) (site_profiles s).
Proof.
  intros Hme Hpost. unfold change_password. rewrite Hme, Hpost.
  simpl String.eqb.
  destruct (PasswordForm (account_POST request)) as [pw|];
    cbn [site_passwords site_profiles site_flash].
  - split; [reflexivity|]. split.
    { intros j Hj. apply lookup_insert_ne. congruence. }
    split.
    { intros pw' [= <-]. split; [apply lookup_insert_eq | reflexivity]. }
    split; [discriminate|].
    unfold save_user. rewrite map_map. apply map_ext. intros q.
    destruct (id (user me) =? id (user q)) eqn:E; [|reflexivity].
    apply Z.eqb_eq in E. cbn. rewrite E. reflexivity.
  - repeat split; try reflexivity; discriminate.
Qed.

End AccountProperties.

Lemma edit_profile_round_trip_witness :
  let (response, s') :=
    edit_profile Sample.profile_form Sample.edit_post Sample.site in
  response = EditPage (FormOf Sample.new_data)
  /\ exists me',
       row_of 2 (site_profiles s') = Some me'
       /\ _user_to_profileform me' = Sample.new_data
       /\ id (user me') = 2
       /\ username (user me') = "bob"
       /\ forall post files,
            edit_profile Sample.profile_form
              {| account_user := Some me'; account_method := "GET";
                 account_POST := post; account_FILES := files |} s'
            = (EditPage (FormOf Sample.new_data), s').
Proof.
  apply (edit_profile_round_trip Sample.profile_form Sample.edit_post
           Sample.site Sample.B Sample.new_data); reflexivity.
Defined.

Lemma edit_profile_last_write_wins_witness :
  site_profiles (snd (edit_profile Sample.profile_form Sample.edit_post
                        (snd (edit_profile Sample.profile_form Sample.edit_post
                                Sample.site))))
  = site_profiles (snd (edit_profile Sample.profile_form Sample.edit_post
                          Sample.site)).
Proof.
  apply (edit_profile_last_write_wins Sample.profile_form
           Sample.edit_post Sample.edit_post Sample.site
           Sample.B Sample.B Sample.new_data Sample.new_data); reflexivity.
Defined.

Lemma edited_profile_is_found_witness :
  In (assign_cleaned_data Sample.new_data Sample.B)
     (search_queryset Sample.grid_distance (Some 1)
        {| cd_location := None; cd_skills := None; cd_name := None;
           cd_position := Some "design"; cd_location_range := None |}
        (site_profiles (snd (edit_profile Sample.profile_form Sample.edit_post
                               Sample.site)))).
Proof.
  apply (edited_profile_is_found Sample.grid_distance Sample.profile_form
           Sample.edit_post Sample.site Sample.B Sample.new_data (Some 1));
    try reflexivity; discriminate.
Defined.

Lemma change_password_effect_witness :
  let (response, s') :=
    change_password Sample.password_form (fun pw => "hash:" ++ pw)
      Sample.password_post Sample.site in
  response = PasswordRedirect "edit_profile"
  /\ site_passwords s' !! 2 = Some "hash:s3cret"
  /\ site_passwords s' !! 1 = None.
Proof.
  pose proof (change_password_effect Sample.password_form
                (fun pw => "hash:" ++ pw) Sample.password_post Sample.site
                Sample.B eq_refl eq_refl) as H.
  destruct (change_password _ _ _ _) as [response s'].
  destruct H as (Hr & Hother & Hvalid & _).
  split; [exact Hr|]. split.
  - apply (Hvalid "s3cret"). reflexivity.
  - rewrite (Hother 1) by (simpl; lia). reflexivity.
Defined.
